(** * A03-ROOM: a first-fit allocator over a fixed pool (main.c)

    Shallow embedding of [Memory_Init], [My_Malloc], [My_Free] and
    [Memory_Stats] of main.c, and the properties of the block chain they
    maintain.

    The static array [memory_pool] is seen through the block headers that
    the program has written into it: a finite map from addresses to
    headers.  Addresses, [size_t] values and pointers are integers of [w]
    bits, with the wrap-around of the machine written out ([wrap]).  The
    null pointer is address 0.  Reading a header at an address where the
    program has written none is outside the model: the operation then
    yields [None]. *)

From stdpp Require Import base option list gmap strings.
From Stdlib Require Import ZArith Lia.

Local Open Scope Z_scope.

(** ** Data model *)

(** [typedef enum { FREE = 0, ALLOCATED = 1 } BlockStatus;] *)
Inductive BlockStatus : Set := FREE | ALLOCATED.

#[global] Instance BlockStatus_eq_dec : EqDecision BlockStatus.
Proof. solve_decision. Defined.

(** [struct MemoryBlockHeader]: [size] is the size of the data region, the
    header excluded. *)
Record MemoryBlockHeader : Set := mkHeader {
  size : Z;
  status : BlockStatus;
  next : Z;
  prev : Z
}.

Definition NULL : Z := 0.

(** The three statics of main.c.  [headers] is the content of
    [memory_pool], as the headers written into it. *)
Record State : Type := mkState {
  headers : gmap Z MemoryBlockHeader;
  first_block : Z;
  is_initialized : Z
}.

(** The statics as the C run time sets them before [main]. *)
Definition program_start : State :=
  {| headers := ∅; first_block := NULL; is_initialized := 0 |}.

(** The [return] statement through which [My_Malloc] leaves: line 70
    (rounded size is zero), line 112 (a block was found), line 120 (the
    chain is exhausted). *)
Inductive MallocExit : Set := ExitZeroSize | ExitFound | ExitNotFound.

(** Assignments to one field of a header. *)
Definition set_size (v : Z) (h : MemoryBlockHeader) : MemoryBlockHeader :=
  mkHeader v (status h) (next h) (prev h).
Definition set_status (v : BlockStatus) (h : MemoryBlockHeader) : MemoryBlockHeader :=
  mkHeader (size h) v (next h) (prev h).
Definition set_next (v : Z) (h : MemoryBlockHeader) : MemoryBlockHeader :=
  mkHeader (size h) (status h) v (prev h).
Definition set_prev (v : Z) (h : MemoryBlockHeader) : MemoryBlockHeader :=
  mkHeader (size h) (status h) (next h) v.

(** [a->field = ...]: the header at [a] is read, changed and written back. *)
Definition store (a : Z) (f : MemoryBlockHeader → MemoryBlockHeader)
    (hs : gmap Z MemoryBlockHeader) : option (gmap Z MemoryBlockHeader) :=
  match hs !! a with
  | Some h => Some (<[a := f h]> hs)
  | None => None
  end.

(** The line [printf] writes in [My_Free]. *)
Definition outside_pool_message : string :=
  String.append "Error: Pointer outside memory pool" (String (Ascii.ascii_of_nat 10) EmptyString).

(** One line of the listing of [Memory_Stats]: the address of the data
    region, the size and the status of a block. *)
Definition StatsRow : Type := Z * Z * BlockStatus.

Record StatsReport : Type := mkReport {
  rows : list StatsRow;
  block_count : Z;
  free_blocks : Z;
  total_free : Z
}.

(** What main.c leaves to the C implementation. *)
Class Platform : Set := mkPlatform {
  (** width in bits of [size_t] and of a data pointer *)
  w : Z;
  (** [sizeof (MemoryBlockHeader)] *)
  header_size : Z;
  (** address of the static array [memory_pool] *)
  memory_pool : Z
}.

(** [#define MEMORY_POOL_SIZE 1024 * 10] *)
Definition MEMORY_POOL_SIZE : Z := 1024 * 10.

Section Allocator.

Context {P : Platform}.

(** [#define MIN_BLOCK_SIZE sizeof (MemoryBlockHeader)] *)
Definition MIN_BLOCK_SIZE : Z := header_size.

(** Arithmetic on [size_t] and on addresses is modulo [2^w]; one reduction
    of the whole expression equals one reduction per operation. *)
Definition wrap (x : Z) : Z := x mod 2 ^ w.

(** [void Memory_Init (void)].  All four fields of the header at the start
    of the pool are assigned, whatever the pool held there. *)
Definition Memory_Init (st : State) : State :=
  if negb (is_initialized st =? 0) then st
  else
    let first := memory_pool in
    {| headers :=
         <[first := mkHeader (wrap (MEMORY_POOL_SIZE - header_size)) FREE NULL NULL]>
           (headers st);
       first_block := first;
       is_initialized := 1 |}.

(** [size = (size + 3) & ~3;] *)
Definition align4 (sz : Z) : Z := Z.land (wrap (sz + 3)) (wrap (Z.lnot 3)).

(** Lines 82-106: the split of [current] when it is large enough.  The
    four fields of [new_block] are assigned from values read in [current];
    the later stores read the pool again. *)
Definition split_block (current sz : Z) (hs : gmap Z MemoryBlockHeader)
    : option (gmap Z MemoryBlockHeader) :=
  cur ← hs !! current;
  if wrap (sz + header_size + MIN_BLOCK_SIZE) <=? size cur then
    let new_block := wrap (current + header_size + sz) in
    let hs1 :=
      <[new_block := mkHeader (wrap (size cur - sz - header_size)) FREE (next cur) current]> hs in
    hs2 ← store current (set_size sz) hs1;
    hs3 ← store current (set_next new_block) hs2;
    nb ← hs3 !! new_block;
    if next nb =? NULL then Some hs3
    else store (next nb) (set_prev new_block) hs3
  else Some hs.

(** Lines 76-120: the [while] loop.  [fuel] bounds the number of blocks
    visited; a traversal that outlasts it has no result. *)
Fixpoint malloc_loop (fuel : nat) (st : State) (current sz : Z)
    : option (MallocExit * Z * State) :=
  match fuel with
  | O => None
  | S fuel' =>
      if current =? NULL then Some (ExitNotFound, NULL, st)
      else
        match headers st !! current with
        | None => None
        | Some cur =>
            if bool_decide (status cur = FREE) && (sz <=? size cur) then
              match split_block current sz (headers st) with
              | None => None
              | Some hs1 =>
                  match store current (set_status ALLOCATED) hs1 with
                  | None => None
                  | Some hs2 =>
                      Some (ExitFound, wrap (current + header_size),
                            mkState hs2 (first_block st) (is_initialized st))
                  end
              end
            else malloc_loop fuel' st (next cur) sz
        end
  end.

(** A walk along [next] that visits more headers than the pool holds has
    met one of them twice and never ends: that many steps are enough for
    every walk that ends. *)
Definition chain_fuel (st : State) : nat := S (stdpp.base.size (headers st)).

(** [void* My_Malloc (size_t size)]: the exit taken, the pointer returned
    and the statics afterwards. *)
Definition My_Malloc (st : State) (sz : Z) : option (MallocExit * Z * State) :=
  let st := if is_initialized st =? 0 then Memory_Init st else st in
  let sz := align4 sz in
  if sz =? 0 then Some (ExitZeroSize, NULL, st)
  else malloc_loop (chain_fuel st) st (first_block st) sz.

(** Lines 151-162 of [My_Free]: merge with the next block when it is free. *)
Definition merge_next (block : Z) (hs : gmap Z MemoryBlockHeader)
    : option (gmap Z MemoryBlockHeader) :=
  b ← hs !! block;
  let next_block := next b in
  if next_block =? NULL then Some hs
  else
    nb ← hs !! next_block;
    if bool_decide (status nb = FREE) then
      hs1 ← store block (λ h, set_size (wrap (size h + (header_size + size nb))) h) hs;
      nb1 ← hs1 !! next_block;
      hs2 ← store block (set_next (next nb1)) hs1;
      nb2 ← hs2 !! next_block;
      if next nb2 =? NULL then Some hs2
      else store (next nb2) (set_prev block) hs2
    else Some hs.

(** Lines 164-175 of [My_Free]: merge into the previous block when it is
    free. *)
Definition merge_prev (block : Z) (hs : gmap Z MemoryBlockHeader)
    : option (gmap Z MemoryBlockHeader) :=
  b ← hs !! block;
  let prev_block := prev b in
  if prev_block =? NULL then Some hs
  else
    pb ← hs !! prev_block;
    if bool_decide (status pb = FREE) then
      hs1 ← store prev_block (λ h, set_size (wrap (size h + (header_size + size b))) h) hs;
      b1 ← hs1 !! block;
      hs2 ← store prev_block (set_next (next b1)) hs1;
      b2 ← hs2 !! block;
      if next b2 =? NULL then Some hs2
      else store (next b2) (set_prev prev_block) hs2
    else Some hs.

(** [void My_Free (void* ptr)]: what was printed and the statics
    afterwards. *)
Definition My_Free (st : State) (ptr : Z) : option (list string * State) :=
  if ptr =? NULL then Some ([], st)
  else
    let block := wrap (ptr - header_size) in
    if (block <? memory_pool) || (wrap (memory_pool + MEMORY_POOL_SIZE) <=? block)
    then Some ([outside_pool_message], st)
    else
      hs1 ← store block (set_status FREE) (headers st);
      hs2 ← merge_next block hs1;
      hs3 ← merge_prev block hs2;
      Some ([], mkState hs3 (first_block st) (is_initialized st)).

(** The [while] loop of [Memory_Stats], with its three counters. *)
Fixpoint stats_loop (fuel : nat) (hs : gmap Z MemoryBlockHeader) (current : Z)
    (acc : StatsReport) : option StatsReport :=
  match fuel with
  | O => None
  | S fuel' =>
      if current =? NULL then Some acc
      else
        match hs !! current with
        | None => None
        | Some cur =>
            let row := (wrap (current + header_size), size cur, status cur) in
            let free := bool_decide (status cur = FREE) in
            stats_loop fuel' hs (next cur)
              {| rows := rows acc ++ [row];
                 block_count := block_count acc + 1;
                 free_blocks := if free then free_blocks acc + 1 else free_blocks acc;
                 total_free := if free then wrap (total_free acc + size cur)
                               else total_free acc |}
        end
  end.

(** [void Memory_Stats (void)]: the listing and the summary it prints. *)
Definition Memory_Stats (st : State) : option StatsReport :=
  stats_loop (chain_fuel st) (headers st) (first_block st) (mkReport [] 0 0 0).

(** ** The chain as a list of blocks *)

(** A block of the chain, as its size and status; its address follows from
    the blocks before it. *)
Definition Block : Type := Z * BlockStatus.

(** Bytes of the pool taken by a run of blocks, headers included. *)
Fixpoint span (bs : list Block) : Z :=
  match bs with
  | [] => 0
  | b :: bs' => header_size + b.1 + span bs'
  end.

(** Address of the last block of [bs] laid out from [a]; [p] when there is
    none. *)
Fixpoint last_addr (a p : Z) (bs : list Block) : Z :=
  match bs with
  | [] => p
  | b :: bs' => last_addr (a + header_size + b.1) a bs'
  end.

(** [chain_from hs a p bs t]: the headers of [bs] lie in [hs] one after the
    other from address [a], each at the address where the one before
    ends; [next] points to the following block, [t] in the last one;
    [prev] points to the block before, [p] in the first one. *)
Fixpoint chain_from (hs : gmap Z MemoryBlockHeader) (a p : Z) (bs : list Block)
    (t : Z) : Prop :=
  match bs with
  | [] => True
  | b :: bs' =>
      0 ≤ b.1 ∧
      hs !! a = Some (mkHeader b.1 b.2
                        (match bs' with [] => t | _ :: _ => a + header_size + b.1 end) p) ∧
      chain_from hs (a + header_size + b.1) a bs' t
  end.

(** The pool holds the chain [bs]: it starts at the base of the pool, ends
    with a null [next], starts with a null [prev], and takes the whole
    pool. *)
Definition chain_heap (hs : gmap Z MemoryBlockHeader) (bs : list Block) : Prop :=
  chain_from hs memory_pool NULL bs NULL ∧ span bs = MEMORY_POOL_SIZE.

(** The allocator is initialized and its chain is [bs]. *)
Definition chain (st : State) (bs : list Block) : Prop :=
  is_initialized st ≠ 0 ∧ first_block st = memory_pool ∧ chain_heap (headers st) bs.

(** The test of line 79. *)
Definition fits (sz : Z) (b : Block) : bool :=
  bool_decide (b.2 = FREE) && (sz <=? b.1).

(** No two neighbours of the chain are both free. *)
Fixpoint no_adjacent_free (bs : list Block) : Prop :=
  match bs with
  | [] => True
  | b :: bs' =>
      match bs' with
      | [] => True
      | b' :: _ => ¬ (b.2 = FREE ∧ b'.2 = FREE)
      end ∧ no_adjacent_free bs'
  end.

(** The block of size [sz] takes in the block after it when that one is
    free: the new size and the blocks that remain after it. *)
Definition absorb_next (sz : Z) (l2 : list Block) : Z * list Block :=
  match l2 with
  | (nsz, FREE) :: l2' => (sz + (header_size + nsz), l2')
  | _ => (sz, l2)
  end.

(** The free block of size [sz] that follows [l1] is taken in by the last
    block of [l1] when that one is free. *)
Definition absorb_prev (l1 : list Block) (sz : Z) (rest : list Block) : list Block :=
  match last l1 with
  | Some (psz, FREE) => removelast l1 ++ (psz + (header_size + sz), FREE) :: rest
  | _ => l1 ++ (sz, FREE) :: rest
  end.

(** The chain [l1 ++ (sz, _) :: l2] after the release of its middle block:
    marked free, merged with the next block, then with the previous one. *)
Definition release_blocks (l1 : list Block) (sz : Z) (l2 : list Block) : list Block :=
  absorb_prev l1 (absorb_next sz l2).1 (absorb_next sz l2).2.

(** The chain [l1 ++ (csz, FREE) :: l2] after an allocation of [sz] bytes
    in its middle block. *)
Definition allocate_blocks (l1 : list Block) (csz sz : Z) (l2 : list Block) : list Block :=
  if sz + header_size + header_size <=? csz
  then l1 ++ (sz, ALLOCATED) :: (csz - sz - header_size, FREE) :: l2
  else l1 ++ (csz, ALLOCATED) :: l2.

(** Addresses of the data regions of the allocated blocks of [bs] laid out
    from [a]: the handles in use. *)
Fixpoint handles (a : Z) (bs : list Block) : list Z :=
  match bs with
  | [] => []
  | b :: bs' =>
      (if bool_decide (b.2 = ALLOCATED) then [a + header_size] else [])
      ++ handles (a + header_size + b.1) bs'
  end.

(** The listing [Memory_Stats] gives of [bs] laid out from [a]. *)
Fixpoint listing (a : Z) (bs : list Block) : list StatsRow :=
  match bs with
  | [] => []
  | b :: bs' => (a + header_size, b.1, b.2) :: listing (a + header_size + b.1) bs'
  end.

(** Number of free blocks and bytes of their data regions. *)
Definition free_count (bs : list Block) : Z :=
  Z.of_nat (length (filter (λ b : Block, b.2 = FREE) bs)).

Fixpoint free_bytes (bs : list Block) : Z :=
  match bs with
  | [] => 0
  | b :: bs' => (if bool_decide (b.2 = FREE) then b.1 else 0) + free_bytes bs'
  end.

(** ** Runs of calls *)

(** Calls of [My_Malloc] one after the other, each of which returns a
    block: the pointers returned and the statics at the end. *)
Fixpoint malloc_all (st : State) (sizes : list Z) : option (list Z * State) :=
  match sizes with
  | [] => Some ([], st)
  | sz :: sizes' =>
      match My_Malloc st sz with
      | Some (ExitFound, p, st1) =>
          match malloc_all st1 sizes' with
          | Some (ps, st2) => Some (p :: ps, st2)
          | None => None
          end
      | _ => None
      end
  end.

(** Calls of [My_Free] one after the other, none of which prints. *)
Fixpoint free_all (st : State) (ptrs : list Z) : option State :=
  match ptrs with
  | [] => Some st
  | p :: ptrs' =>
      match My_Free st p with
      | Some ([], st1) => free_all st1 ptrs'
      | _ => None
      end
  end.

(** [reachable st ps]: calls of the three functions lead from the start
    of the program to the statics [st], with the pointers [ps] returned by
    [My_Malloc] and not yet given to [My_Free].  [My_Free] is only given
    such a pointer, or null. *)
Inductive reachable : State → list Z → Prop :=
  | reach_init st :
      is_initialized st = 0 → reachable (Memory_Init st) []
  | reach_init_again st ps :
      reachable st ps → reachable (Memory_Init st) ps
  | reach_malloc st ps s p st' :
      reachable st ps → My_Malloc st s = Some (ExitFound, p, st') →
      reachable st' (p :: ps)
  | reach_malloc_null st ps s e p st' :
      reachable st ps → e ≠ ExitFound → My_Malloc st s = Some (e, p, st') →
      reachable st' ps
  | reach_free st ps p qs out st' :
      reachable st ps → ps ≡ₚ p :: qs → My_Free st p = Some (out, st') →
      reachable st' qs
  | reach_free_null st ps out st' :
      reachable st ps → My_Free st NULL = Some (out, st') →
      reachable st' ps.

(** ** The demonstration of [main] *)

(** [Memory_Init ()], then [My_Malloc] of 100, 200 and 300 bytes: the three
    pointers and the statics afterwards. *)
Definition scenario_A : option (Z * Z * Z * State) :=
  '(_, ptr1, st1) ← My_Malloc (Memory_Init program_start) 100;
  '(_, ptr2, st2) ← My_Malloc st1 200;
  '(_, ptr3, st3) ← My_Malloc st2 300;
  Some (ptr1, ptr2, ptr3, st3).

(** Then [My_Free (ptr2)]. *)
Definition scenario_B : option (Z * Z * Z * State) :=
  '(ptr1, ptr2, ptr3, st3) ← scenario_A;
  '(_, st4) ← My_Free st3 ptr2;
  Some (ptr1, ptr2, ptr3, st4).

(** What [Memory_Stats] reports then. *)
Definition scenario_B_report : option StatsReport :=
  '(_, _, _, st4) ← scenario_B; Memory_Stats st4.

(** Number of lines of a listing with a given status. *)
Definition count_status (s : BlockStatus) (l : list StatsRow) : nat :=
  length (filter (λ row : StatsRow, row.2 = s) l).

(** The outcome of the scenario as the specification words it: four
    blocks, three of them allocated and one free. *)
Definition scenario_B_as_specified : Prop :=
  ∃ rep, scenario_B_report = Some rep ∧
         length (rows rep) = 4%nat ∧
         count_status ALLOCATED (rows rep) = 3%nat ∧
         count_status FREE (rows rep) = 1%nat.

(** ** Regions in use and reports *)

(** The data regions of the allocated blocks of [bs] laid out from [a]:
    address and size, in the order of the chain. *)
Fixpoint allocated (a : Z) (bs : list Block) : list (Z * Z) :=
  match bs with
  | [] => []
  | b :: bs' =>
      (if bool_decide (b.2 = ALLOCATED) then [(a + header_size, b.1)] else [])
      ++ allocated (a + header_size + b.1) bs'
  end.

(** What [Memory_Stats] prints for the chain [bs]. *)
Definition report (bs : list Block) : StatsReport :=
  {| rows := listing memory_pool bs;
     block_count := Z.of_nat (length bs);
     free_blocks := free_count bs;
     total_free := free_bytes bs |}.

(** Bytes of the data regions of the lines of a listing with a given
    status. *)
Fixpoint row_bytes (s : BlockStatus) (l : list StatsRow) : Z :=
  match l with
  | [] => 0
  | row :: l' => (if bool_decide (row.2 = s) then row.1.2 else 0) + row_bytes s l'
  end.

(** ** The program *)

(** What the program writes: a line of text of [main] or of [My_Free], or
    the listing and summary of a call of [Memory_Stats]. *)
Inductive Output : Type :=
  | Print (line : string)
  | PrintStats (rep : StatsReport).

Definition newline : string := String (Ascii.ascii_of_nat 10) EmptyString.

(** [int main (void)]: what is written and the value returned. *)
Definition main : option (list Output * Z) :=
  let st0 := Memory_Init program_start in
  rep0 ← Memory_Stats st0;
  '(_, ptr1, st1) ← My_Malloc st0 100;
  rep1 ← Memory_Stats st1;
  '(_, ptr2, st2) ← My_Malloc st1 200;
  rep2 ← Memory_Stats st2;
  '(_, ptr3, st3) ← My_Malloc st2 300;
  rep3 ← Memory_Stats st3;
  '(out4, st4) ← My_Free st3 ptr2;
  rep4 ← Memory_Stats st4;
  '(out5, st5) ← My_Free st4 ptr1;
  rep5 ← Memory_Stats st5;
  '(out6, st6) ← My_Free st5 ptr3;
  rep6 ← Memory_Stats st6;
  Some ([Print (String.append "Initial memory state:" newline); PrintStats rep0;
         Print (String.append newline (String.append "After allocating 100 bytes:" newline));
         PrintStats rep1;
         Print (String.append newline (String.append "After allocating 200 bytes:" newline));
         PrintStats rep2;
         Print (String.append newline (String.append "After allocating 300 bytes:" newline));
         PrintStats rep3]
        ++ (Print <$> out4)
        ++ [Print (String.append newline
                     (String.append "After freeing the second allocation:" newline));
            PrintStats rep4]
        ++ (Print <$> out5)
        ++ [Print (String.append newline
                     (String.append "After freeing the first allocation:" newline));
            PrintStats rep5]
        ++ (Print <$> out6)
        ++ [Print (String.append newline
                     (String.append "After freeing all allocations:" newline));
            PrintStats rep6],
        0).

(** Two blocks are allocated, the first is released, then the second, and
    then the second once more: what [Memory_Stats] reports. *)
Definition double_release : option StatsReport :=
  '(_, ptr1, st1) ← My_Malloc (Memory_Init program_start) 100;
  '(_, ptr2, st2) ← My_Malloc st1 200;
  '(_, st3) ← My_Free st2 ptr1;
  '(_, st4) ← My_Free st3 ptr2;
  '(_, st5) ← My_Free st4 ptr2;
  Memory_Stats st5.

End Allocator.

(** ** The platform of the demonstration: LP64 *)

(** [size_t] and pointers of 64 bits, a header of 8 + 4 (+ 4 of padding)
    + 8 + 8 bytes, and the pool at some address. *)
Definition lp64 : Platform := {| w := 64; header_size := 32; memory_pool := 4096 |}.

(** The statics of LP64 after [Memory_Init], after one allocation of 100
    bytes, and after the three allocations of [main]. *)
Definition lp64_ready : State := Memory_Init (P := lp64) program_start.

Definition lp64_one : State :=
  match My_Malloc (P := lp64) lp64_ready 100 with
  | Some (_, _, st) => st
  | None => lp64_ready
  end.

Definition lp64_three : State :=
  match malloc_all (P := lp64) lp64_ready [100; 200; 300] with
  | Some (_, st) => st
  | None => lp64_ready
  end.

(** The statics of LP64 after the release of the block of 100 bytes of
    [lp64_one]; and after allocations of 100 and 200 bytes and the release
    of the first. *)
Definition lp64_released : State :=
  match My_Free (P := lp64) lp64_one 4128 with
  | Some (_, st) => st
  | None => lp64_one
  end.

Definition lp64_hole : State :=
  match malloc_all (P := lp64) lp64_ready [100; 200] with
  | Some (_, st) =>
      match My_Free (P := lp64) st 4128 with
      | Some (_, st') => st'
      | None => st
      end
  | None => lp64_ready
  end.

(** What the properties below need of the platform: [size_t] has the 16
    bits the C standard asks for at least, a header has a size and fits in
    the pool, and the pool lies in the address space, away from the null
    address. *)
Record PlatformOk (P : Platform) : Prop := mkPlatformOk {
  width_min : 16 ≤ w;
  header_size_pos : 0 < header_size;
  header_size_lt_pool : header_size < MEMORY_POOL_SIZE;
  memory_pool_pos : 0 < memory_pool;
  memory_pool_end : memory_pool + MEMORY_POOL_SIZE < 2 ^ w
}.

(** ** Arithmetic of the platform *)

Section Properties.

Context {P : Platform}.
Hypothesis Hok : PlatformOk P.

Lemma header_positive : 0 < header_size.
Proof. apply Hok. Qed.

Lemma pool_bounds :
  0 < header_size < MEMORY_POOL_SIZE ∧ 0 < memory_pool ∧
  memory_pool + MEMORY_POOL_SIZE < 2 ^ w.
Proof. destruct Hok; lia. Qed.

Lemma width_ge_2 : 2 ≤ w.
Proof. destruct Hok; lia. Qed.

Lemma pow_w_large : 65536 ≤ 2 ^ w.
Proof.
  change 65536 with (2 ^ 16). apply Z.pow_le_mono_r; [lia|]. apply Hok.
Qed.

Lemma wrap_small x : 0 ≤ x < 2 ^ w → wrap x = x.
Proof. intros. unfold wrap. by apply Z.mod_small. Qed.

Lemma wrap_range x : 0 ≤ wrap x < 2 ^ w.
Proof.
  unfold wrap. apply Z.mod_pos_bound.
  pose proof pool_bounds. unfold MEMORY_POOL_SIZE in *. lia.
Qed.

Lemma pow_w_split : 2 ^ w = 4 * 2 ^ (w - 2).
Proof.
  pose proof width_ge_2.
  replace w with (2 + (w - 2)) at 1 by lia.
  rewrite Z.pow_add_r by lia. reflexivity.
Qed.

Lemma wrap_lnot_3 : wrap (Z.lnot 3) = Z.ldiff (Z.ones w) (Z.ones 2).
Proof.
  pose proof width_ge_2.
  assert (0 < 2 ^ (w - 2)) by (apply Z.pow_pos_nonneg; lia).
  rewrite Z.ldiff_ones_r by lia.
  rewrite Z.shiftl_mul_pow2, Z.shiftr_div_pow2 by lia.
  rewrite Z.ones_equiv. unfold wrap.
  change (Z.lnot 3) with (-4). change (2 ^ 2) with 4.
  rewrite pow_w_split.
  replace (Z.pred (4 * 2 ^ (w - 2)) / 4) with (2 ^ (w - 2) - 1)
    by (apply Z.div_unique with 3; lia).
  symmetry. apply Z.mod_unique with (-1); lia.
Qed.

(** The rounding of line 65 is the next multiple of 4, as a [size_t]. *)
Lemma align4_spec s : align4 s = wrap (4 * ((s + 3) / 4)).
Proof.
  pose proof width_ge_2.
  assert (0 < 2 ^ (w - 2)) by (apply Z.pow_pos_nonneg; lia).
  unfold align4. rewrite wrap_lnot_3.
  rewrite (Z.ldiff_land (Z.ones w)), Z.land_assoc, <- Z.ldiff_land.
  rewrite (Z.land_ones (wrap (s + 3))) by lia.
  fold (wrap (wrap (s + 3))). rewrite (wrap_small (wrap _)) by apply wrap_range.
  rewrite Z.ldiff_ones_r by lia.
  rewrite Z.shiftl_mul_pow2, Z.shiftr_div_pow2 by lia.
  change (2 ^ 2) with 4. unfold wrap. rewrite pow_w_split.
  rewrite Z.rem_mul_r by lia.
  rewrite Z.mul_mod_distr_l by lia.
  pose proof (Z.mod_pos_bound (s + 3) 4 ltac:(lia)).
  replace (((s + 3) mod 4 + 4 * (((s + 3) / 4) mod 2 ^ (w - 2))) / 4)
    with (((s + 3) / 4) mod 2 ^ (w - 2)); [lia|].
  apply Z.div_unique with ((s + 3) mod 4); lia.
Qed.

(** ** Runs of blocks in the pool *)

Lemma span_app l1 l2 : span (l1 ++ l2) = span l1 + span l2.
Proof. induction l1 as [|b l1 IH]; simpl; lia. Qed.

Lemma chain_from_span hs a p bs t : chain_from hs a p bs t → 0 ≤ span bs.
Proof.
  pose proof header_positive.
  revert a p. induction bs as [|b bs IH]; simpl; intros a p; [lia|].
  intros (? & _ & Hrest). apply IH in Hrest. lia.
Qed.

Lemma chain_from_span_pos hs a p b bs t :
  chain_from hs a p (b :: bs) t → header_size + b.1 ≤ span (b :: bs) ∧ 0 ≤ b.1.
Proof.
  simpl. intros (? & _ & Hrest). apply chain_from_span in Hrest. lia.
Qed.

Lemma last_addr_snoc a p l b : last_addr a p (l ++ [b]) = a + span l.
Proof.
  revert a p. induction l as [|c l IH]; simpl; intros a p; [lia|].
  rewrite IH. lia.
Qed.

(** A run of blocks is a run, then another one where the first ends. *)
Lemma chain_from_app hs l1 l2 a p t :
  chain_from hs a p (l1 ++ l2) t ↔
  chain_from hs a p l1 (match l2 with [] => t | _ :: _ => a + span l1 end) ∧
  chain_from hs (a + span l1) (last_addr a p l1) l2 t.
Proof.
  revert a p. induction l1 as [|b l1 IH]; intros a p.
  - simpl. rewrite Z.add_0_r. tauto.
  - cbn [app chain_from span last_addr]. rewrite IH.
    replace (a + (header_size + b.1 + span l1))
      with (a + header_size + b.1 + span l1) by lia.
    destruct l1 as [|c l1], l2 as [|d l2]; cbn [app span];
      rewrite ?Z.add_0_r; tauto.
Qed.

(** A run only depends on the pool between its two ends. *)
Lemma chain_from_frame hs hs' a p bs t :
  (∀ x, a ≤ x < a + span bs → hs' !! x = hs !! x) →
  chain_from hs a p bs t → chain_from hs' a p bs t.
Proof.
  pose proof header_positive.
  revert a p. induction bs as [|b bs IH]; intros a p Hsame; [done|].
  intros Hc. pose proof (chain_from_span_pos _ _ _ _ _ _ Hc) as [Hsp ?].
  destruct Hc as (? & Hhd & Hrest). pose proof (chain_from_span _ _ _ _ _ Hrest).
  simpl in Hsp. split; [done|]. split.
  - rewrite Hsame; [done|]. simpl. lia.
  - apply IH; [|done]. intros x Hx. apply Hsame. simpl. lia.
Qed.

(** The header of a block in the middle of a run. *)
Lemma chain_from_lookup hs a p l1 b l2 t :
  chain_from hs a p (l1 ++ b :: l2) t →
  hs !! (a + span l1) =
    Some (mkHeader b.1 b.2
            (match l2 with [] => t | _ :: _ => a + span l1 + header_size + b.1 end)
            (last_addr a p l1)).
Proof. rewrite chain_from_app. simpl. tauto. Qed.

(** The [prev] of the first block of a run can be set to anything. *)
Lemma chain_from_set_prev hs a p p' b bs t h :
  chain_from hs a p (b :: bs) t → hs !! a = Some h →
  chain_from (<[a := set_prev p' h]> hs) a p' (b :: bs) t.
Proof.
  pose proof header_positive.
  intros Hc Ha. destruct Hc as (? & Hhd & Hrest).
  rewrite Ha in Hhd. injection Hhd as ->. split; [done|]. split.
  - by rewrite lookup_insert_eq.
  - eapply chain_from_frame; [|done]. intros x Hx.
    rewrite lookup_insert_ne; [done|lia].
Qed.

(** A run visits no header twice: it is no longer than the pool has
    headers. *)
Lemma chain_from_length hs a p bs t :
  chain_from hs a p bs t → (length bs ≤ stdpp.base.size hs)%nat.
Proof.
  pose proof header_positive.
  revert hs a p. induction bs as [|b bs IH]; intros hs a p Hc; simpl; [lia|].
  pose proof (chain_from_span_pos _ _ _ _ _ _ Hc) as [_ ?].
  destruct Hc as (_ & Hhd & Hrest).
  assert (chain_from (delete a hs) (a + header_size + b.1) a bs t) as Hdel.
  { eapply chain_from_frame; [|done]. intros x Hx.
    rewrite lookup_delete_ne; [done|lia]. }
  apply IH in Hdel.
  rewrite map_size_delete_Some in Hdel by eauto.
  assert (stdpp.base.size hs ≠ 0%nat); [|lia].
  rewrite map_size_ne_0_lookup. eauto.
Qed.

(** ** The loop of [My_Malloc] along the chain *)

Lemma fits_false_iff r (b : Block) :
  fits r b = false ↔ ¬ (b.2 = FREE ∧ r ≤ b.1).
Proof.
  unfold fits. rewrite andb_false_iff, bool_decide_eq_false, Z.leb_gt.
  destruct (decide (b.2 = FREE)); intuition lia.
Qed.

(** The loop walks over the blocks that do not fit. *)
Lemma malloc_loop_skip st r l1 l2 a p t fuel :
  0 < a → l2 ≠ [] →
  chain_from (headers st) a p (l1 ++ l2) t →
  Forall (λ b, fits r b = false) l1 →
  malloc_loop (length l1 + fuel) st a r = malloc_loop fuel st (a + span l1) r.
Proof.
  pose proof header_positive.
  intros Ha Hl2. revert a p Ha.
  induction l1 as [|b l1 IH]; intros a p Ha Hc Hno.
  - simpl. by rewrite Z.add_0_r.
  - inversion Hno as [|? ? Hb Hno']; subst.
    pose proof (chain_from_span_pos _ _ _ _ _ _ Hc) as [_ ?].
    destruct Hc as (_ & Hhd & Hrest).
    cbn [length Nat.add malloc_loop].
    rewrite (proj2 (Z.eqb_neq a NULL)) by (unfold NULL; lia).
    rewrite Hhd. cbn [status size next]. fold (fits r b). rewrite Hb.
    assert ((match l1 ++ l2 with [] => t | _ :: _ => a + header_size + b.1 end)
            = a + header_size + b.1) as ->.
    { destruct l1; [destruct l2|]; done. }
    rewrite (IH _ a) by (done || lia). f_equal. simpl. lia.
Qed.

(** When no block fits, the loop reaches the end of the chain. *)
Lemma malloc_loop_exhaust st r bs a p fuel :
  0 < a → bs ≠ [] →
  chain_from (headers st) a p bs NULL →
  Forall (λ b, fits r b = false) bs →
  malloc_loop (length bs + S fuel) st a r = Some (ExitNotFound, NULL, st).
Proof.
  pose proof header_positive.
  intros Ha Hne. revert a p Ha.
  induction bs as [|b bs IH]; intros a p Ha Hc Hno; [done|].
  inversion Hno as [|? ? Hb Hno']; subst.
  pose proof (chain_from_span_pos _ _ _ _ _ _ Hc) as [_ ?].
  destruct Hc as (_ & Hhd & Hrest).
  cbn [length Nat.add malloc_loop].
  rewrite (proj2 (Z.eqb_neq a NULL)) by (unfold NULL; lia).
  rewrite Hhd. cbn [status size next]. fold (fits r b). rewrite Hb.
  destruct bs as [|c bs].
  - reflexivity.
  - apply (IH ltac:(done) _ a); [lia|done..].
Qed.

(** ** Allocation in a block of the chain *)

Ltac heap_lookup :=
  repeat (rewrite lookup_insert_eq || (rewrite lookup_insert_ne by lia)).

Lemma store_Some a f hs h :
  hs !! a = Some h → store a f hs = Some (<[a := f h]> hs).
Proof. unfold store. by intros ->. Qed.

Ltac store_step :=
  erewrite store_Some by (heap_lookup; first [eassumption | reflexivity]);
  cbn [mbind option_bind].

Lemma chain_heap_split hs l1 b l2 :
  chain_heap hs (l1 ++ b :: l2) →
  let a := memory_pool + span l1 in
  0 ≤ span l1 ∧ 0 ≤ b.1 ∧ 0 ≤ span l2 ∧
  span l1 + (header_size + b.1 + span l2) = MEMORY_POOL_SIZE ∧
  chain_from hs memory_pool NULL l1 a ∧
  hs !! a = Some (mkHeader b.1 b.2
                    (match l2 with [] => NULL | _ :: _ => a + header_size + b.1 end)
                    (last_addr memory_pool NULL l1)) ∧
  chain_from hs (a + header_size + b.1) a l2 NULL.
Proof.
  intros [Hc Hsp] a. rewrite span_app in Hsp. simpl in Hsp.
  apply chain_from_app in Hc as [H1 H2]. fold a in H1, H2.
  pose proof (chain_from_span _ _ _ _ _ H1).
  destruct H2 as (? & Hhd & H2). pose proof (chain_from_span _ _ _ _ _ H2).
  repeat split; try done; lia.
Qed.

Lemma allocate_here hs l1 csz l2 r :
  chain_heap hs (l1 ++ (csz, FREE) :: l2) → 0 < r ≤ csz →
  ∃ hs1 hs2,
    split_block (memory_pool + span l1) r hs = Some hs1 ∧
    store (memory_pool + span l1) (set_status ALLOCATED) hs1 = Some hs2 ∧
    chain_heap hs2 (allocate_blocks l1 csz r l2).
Proof.
  pose proof pool_bounds as (Hh & Hb & He). pose proof pow_w_large as Hw.
  unfold MEMORY_POOL_SIZE in *.
  intros Hch Hr.
  destruct (chain_heap_split _ _ _ _ Hch) as (Hs1 & Hcsz & Hs2 & Hsum & Hpre & Hhd & Hpost).
  unfold MEMORY_POOL_SIZE in *. cbn [fst snd] in *.
  remember (last_addr memory_pool NULL l1) as pv eqn:Hpv.
  remember (memory_pool + span l1) as a eqn:Ha.
  unfold split_block, allocate_blocks, MIN_BLOCK_SIZE.
  rewrite Hhd. cbn [mbind option_bind size next].
  rewrite (wrap_small (r + header_size + header_size)) by lia.
  destruct (Z.leb_spec (r + header_size + header_size) csz) as [Hsplit|Hno].
  - (* the block is split *)
    rewrite (wrap_small (a + header_size + r)) by lia.
    rewrite (wrap_small (csz - r - header_size)) by lia.
    remember (a + header_size + r) as nb eqn:Hnb.
    assert (∀ hs3 : gmap Z MemoryBlockHeader,
      (∀ x, x < a → hs3 !! x = hs !! x) →
      hs3 !! nb = Some (mkHeader (csz - r - header_size) FREE
                          (match l2 with [] => NULL | _ :: _ => a + header_size + csz end) a) →
      chain_from hs3 (a + header_size + csz) nb l2 NULL →
      chain_heap (<[a := mkHeader r ALLOCATED nb pv]> hs3)
        (l1 ++ (r, ALLOCATED) :: (csz - r - header_size, FREE) :: l2)) as Hfinal.
    { intros hs3 Hsame Hnb' Hrest. split.
      - apply chain_from_app. rewrite <- Ha, <- Hpv. split.
        + eapply chain_from_frame; [|exact Hpre]. intros x Hx.
          rewrite lookup_insert_ne by lia. apply Hsame; lia.
        + cbn [chain_from fst snd]. rewrite <- Hnb.
          split; [lia|]. split.
          { by rewrite lookup_insert_eq. }
          split; [lia|]. split.
          { rewrite lookup_insert_ne by lia. rewrite Hnb'.
            destruct l2; [done|]. do 2 f_equal. lia. }
          replace (nb + header_size + (csz - r - header_size))
            with (a + header_size + csz) by lia.
          eapply chain_from_frame; [|exact Hrest]. intros x Hx.
          rewrite lookup_insert_ne by lia. done.
      - rewrite span_app. unfold MEMORY_POOL_SIZE. simpl. lia. }
    do 2 store_step. heap_lookup. cbn [mbind option_bind next].
    unfold set_size, set_next. cbn [size status next prev].
    destruct l2 as [|b2 l2'].
    + cbn [Z.eqb NULL].
      eexists _, _. split; [reflexivity|]. split; [store_step; reflexivity|].
      unfold set_status; cbn [size status next prev].
      rewrite !insert_insert_eq. apply Hfinal; heap_lookup; try done.
      intros x ?. by heap_lookup.
    + pose proof (chain_from_span_pos _ _ _ _ _ _ Hpost) as [? ?].
      rewrite (proj2 (Z.eqb_neq _ NULL)) by (unfold NULL; lia).
      pose proof Hpost as (? & Hhd2 & Hpost').
      store_step.
      eexists _, _. split; [reflexivity|]. split; [store_step; reflexivity|].
      unfold set_status; cbn [size status next prev].
      rewrite insert_insert_eq.
      rewrite (insert_insert_ne _ (a + header_size + csz) a) by lia.
      rewrite insert_insert_eq.
      apply Hfinal.
      * intros x ?. by heap_lookup.
      * by heap_lookup.
      * apply (chain_from_set_prev _ _ a); [|by heap_lookup].
        eapply chain_from_frame; [|exact Hpost]. intros x Hx. by heap_lookup.
  - (* the block is taken whole *)
    eexists _, _. split; [reflexivity|]. split; [store_step; reflexivity|].
    unfold set_status; cbn [size status next prev]. split.
    + apply chain_from_app. rewrite <- Ha, <- Hpv. split.
      * eapply chain_from_frame; [|exact Hpre]. intros x Hx.
        by rewrite lookup_insert_ne by lia.
      * cbn [chain_from fst snd]. split; [lia|]. split.
        { by rewrite lookup_insert_eq. }
        eapply chain_from_frame; [|exact Hpost]. intros x Hx.
        by rewrite lookup_insert_ne by lia.
    + rewrite span_app. unfold MEMORY_POOL_SIZE. simpl. lia.
Qed.

(** ** [My_Malloc] on a chain *)

Lemma chain_initialized st bs :
  chain st bs → (is_initialized st =? 0) = false.
Proof. intros (Hi & _). by apply Z.eqb_neq. Qed.

Lemma chain_nonempty hs bs : chain_heap hs bs → bs ≠ [].
Proof. intros [_ Hsp] ->. done. Qed.

(** Either no block of the chain fits, or there is a first one that does. *)
Lemma first_fit_cases r (bs : list Block) :
  Forall (λ b, fits r b = false) bs ∨
  ∃ l1 c l2, bs = l1 ++ c :: l2 ∧ Forall (λ b, fits r b = false) l1 ∧ fits r c = true.
Proof.
  induction bs as [|b bs IH]; [by left|].
  destruct (fits r b) eqn:Hb.
  - right. by exists [], b, bs.
  - destruct IH as [IH|(l1 & c & l2 & -> & Hl1 & Hc)].
    + left. by constructor.
    + right. exists (b :: l1), c, l2. split; [done|]. split; [by constructor|done].
Qed.

Lemma My_Malloc_zero st bs s :
  chain st bs → align4 s = 0 → My_Malloc st s = Some (ExitZeroSize, NULL, st).
Proof.
  intros Hc Hz. unfold My_Malloc. rewrite (chain_initialized _ _ Hc), Hz. done.
Qed.

Lemma My_Malloc_exhaust st bs s :
  chain st bs → align4 s ≠ 0 →
  Forall (λ b, fits (align4 s) b = false) bs →
  My_Malloc st s = Some (ExitNotFound, NULL, st).
Proof.
  pose proof pool_bounds as (_ & ? & _).
  intros Hc Hnz Hno. unfold My_Malloc.
  rewrite (chain_initialized _ _ Hc), (proj2 (Z.eqb_neq _ 0) Hnz).
  destruct Hc as (_ & -> & Hh). pose proof (chain_nonempty _ _ Hh).
  destruct Hh as [Hh _]. pose proof (chain_from_length _ _ _ _ _ Hh) as Hlen.
  unfold chain_fuel.
  replace (S (stdpp.base.size (headers st)))
    with (length bs + S (stdpp.base.size (headers st) - length bs))%nat by lia.
  by eapply malloc_loop_exhaust.
Qed.

Lemma My_Malloc_found st l1 csz l2 s :
  chain st (l1 ++ (csz, FREE) :: l2) →
  align4 s ≠ 0 → align4 s ≤ csz →
  Forall (λ b, fits (align4 s) b = false) l1 →
  ∃ st', My_Malloc st s = Some (ExitFound, memory_pool + span l1 + header_size, st') ∧
         chain st' (allocate_blocks l1 csz (align4 s) l2).
Proof.
  pose proof pool_bounds as (Hh & Hb & He). pose proof pow_w_large as Hw.
  intros Hc Hnz Hle Hno. unfold My_Malloc.
  rewrite (chain_initialized _ _ Hc), (proj2 (Z.eqb_neq _ 0) Hnz).
  assert (0 < align4 s) as Hpos.
  { rewrite align4_spec in *. pose proof (wrap_range (4 * ((s + 3) / 4))). lia. }
  destruct Hc as (Hi & Hf & Hheap). rewrite Hf.
  destruct (allocate_here _ _ _ _ _ Hheap (conj Hpos Hle)) as (hs1 & hs2 & Hsp & Hst & Hres).
  destruct (chain_heap_split _ _ _ _ Hheap) as (Hs1 & Hcsz & Hs2 & Hsum & Hpre & Hhd & Hpost).
  destruct Hheap as [Hfrom _].
  pose proof (chain_from_length _ _ _ _ _ Hfrom) as Hlen.
  rewrite length_app in Hlen. simpl in Hlen.
  unfold chain_fuel.
  replace (S (stdpp.base.size (headers st)))
    with (length l1 + S (stdpp.base.size (headers st) - length l1))%nat by lia.
  erewrite malloc_loop_skip; [|lia|..|exact Hfrom|exact Hno]; [|done].
  cbn [malloc_loop]. unfold MEMORY_POOL_SIZE in *.
  rewrite (proj2 (Z.eqb_neq _ NULL)) by (unfold NULL; lia).
  rewrite Hhd. cbn [status size fst snd].
  rewrite bool_decide_eq_true_2 by done.
  rewrite (proj2 (Z.leb_le _ _) Hle). cbn [andb].
  rewrite Hsp, Hst. rewrite wrap_small by lia.
  eexists. split; [reflexivity|]. by split.
Qed.

(** ** [My_Free] on a chain *)

(** Line 149: the block is marked. *)
Lemma mark_block hs l1 sz s0 s' l2 :
  chain_heap hs (l1 ++ (sz, s0) :: l2) →
  ∃ hs', store (memory_pool + span l1) (set_status s') hs = Some hs' ∧
         chain_heap hs' (l1 ++ (sz, s') :: l2).
Proof.
  pose proof header_positive.
  intros Hch.
  destruct (chain_heap_split _ _ _ _ Hch) as (Hs1 & Hsz & Hs2 & Hsum & Hpre & Hhd & Hpost).
  cbn [fst snd] in *. destruct Hch as [_ Hsp].
  remember (memory_pool + span l1) as a eqn:Ha.
  store_step. eexists. split; [reflexivity|]. split.
  - apply chain_from_app. rewrite <- Ha. split.
    + eapply chain_from_frame; [|exact Hpre]. intros x Hx. by heap_lookup.
    + cbn [chain_from fst snd]. split; [lia|]. split; [by heap_lookup|].
      eapply chain_from_frame; [|exact Hpost]. intros x Hx. by heap_lookup.
  - rewrite span_app in *. simpl in *. lia.
Qed.

(** Lines 151-162: the block takes in its successor when that one is free. *)
Lemma merge_next_chain hs l1 sz s0 l2 :
  chain_heap hs (l1 ++ (sz, s0) :: l2) →
  ∃ hs', merge_next (memory_pool + span l1) hs = Some hs' ∧
         chain_heap hs' (l1 ++ ((absorb_next sz l2).1, s0) :: (absorb_next sz l2).2).
Proof.
  pose proof pool_bounds as (Hh & Hb & He). pose proof pow_w_large as Hw.
  intros Hch.
  destruct (chain_heap_split _ _ _ _ Hch) as (Hs1 & Hsz & Hs2 & Hsum & Hpre & Hhd & Hpost).
  unfold MEMORY_POOL_SIZE in *. cbn [fst snd] in *.
  remember (last_addr memory_pool NULL l1) as pv eqn:Hpv.
  remember (memory_pool + span l1) as a eqn:Ha.
  unfold merge_next. rewrite Hhd. cbn [mbind option_bind next].
  destruct l2 as [|[nsz ns] l2'].
  { cbn [Z.eqb NULL absorb_next fst snd]. by exists hs. }
  pose proof (chain_from_span_pos _ _ _ _ _ _ Hpost) as [Hsp2 Hnsz].
  cbn [span fst snd] in *.
  pose proof Hpost as (_ & Hhd2 & Hpost').  cbn [fst snd] in *.
  pose proof (chain_from_span _ _ _ _ _ Hpost') as Hs3.
  rewrite (proj2 (Z.eqb_neq _ NULL)) by (unfold NULL; lia).
  rewrite Hhd2. cbn [mbind option_bind status size].
  destruct ns; cbn [absorb_next fst snd]; [|rewrite bool_decide_eq_false_2 by done; by exists hs].
  rewrite bool_decide_eq_true_2 by done.
  store_step. heap_lookup. rewrite Hhd2. cbn [mbind option_bind next].
  store_step. heap_lookup. rewrite Hhd2. cbn [mbind option_bind next].
  unfold set_size, set_next. cbn [size status next prev].
  rewrite insert_insert_eq. rewrite wrap_small by lia.
  remember (a + header_size + sz) as an eqn:Han.
  assert (∀ hs3 : gmap Z MemoryBlockHeader,
    (∀ x, x < a → hs3 !! x = hs !! x) →
    hs3 !! a = Some (mkHeader (sz + (header_size + nsz)) s0
                       (match l2' with [] => NULL | _ :: _ => an + header_size + nsz end) pv) →
    chain_from hs3 (an + header_size + nsz) a l2' NULL →
    chain_heap hs3 (l1 ++ (sz + (header_size + nsz), s0) :: l2')) as Hfinal.
  { intros hs3 Hsame Ha' Hrest. split.
    - apply chain_from_app. rewrite <- Ha, <- Hpv. split.
      + eapply chain_from_frame; [|exact Hpre]. intros x Hx. apply Hsame; lia.
      + cbn [chain_from fst snd]. split; [lia|]. split.
        { rewrite Ha'. destruct l2'; [done|]. do 2 f_equal. lia. }
        replace (a + header_size + (sz + (header_size + nsz)))
          with (an + header_size + nsz) by lia. done.
    - rewrite span_app. unfold MEMORY_POOL_SIZE. simpl. lia. }
  destruct l2' as [|b3 l3].
  - cbn [Z.eqb NULL]. eexists. split; [reflexivity|].
    apply Hfinal; [intros x ?|..]; by heap_lookup.
  - pose proof (chain_from_span_pos _ _ _ _ _ _ Hpost') as [? ?].
    rewrite (proj2 (Z.eqb_neq _ NULL)) by (unfold NULL; lia).
    pose proof Hpost' as (_ & Hhd3 & _).
    store_step. eexists. split; [reflexivity|].
    apply Hfinal; [intros x ?; by heap_lookup|by heap_lookup|].
    apply (chain_from_set_prev _ _ an); [|by heap_lookup].
    eapply chain_from_frame; [|exact Hpost']. intros x Hx. by heap_lookup.
Qed.

(** Lines 164-175: the block before takes in the block when it is free. *)
Lemma merge_prev_chain hs l1 sz l2 :
  chain_heap hs (l1 ++ (sz, FREE) :: l2) →
  ∃ hs', merge_prev (memory_pool + span l1) hs = Some hs' ∧
         chain_heap hs' (absorb_prev l1 sz l2).
Proof.
  pose proof pool_bounds as (Hh & Hb & He). pose proof pow_w_large as Hw.
  intros Hch. unfold absorb_prev.
  destruct l1 as [|c l0 _] using rev_ind.
  { destruct (chain_heap_split _ _ _ _ Hch) as (_ & _ & _ & _ & _ & Hhd & _).
    unfold merge_prev. rewrite Hhd. cbn [mbind option_bind prev last_addr Z.eqb NULL].
    by exists hs. }
  rewrite last_snoc, removelast_last. destruct c as [psz ps].
  assert (span (l0 ++ [(psz, ps)]) = span l0 + header_size + psz) as Hspan
    by (rewrite span_app; simpl; lia).
  rewrite Hspan.
  pose proof (chain_heap_split _ _ _ _ Hch) as (_ & Hsz & _ & _ & _ & Hhd & Hpost).
  rewrite Hspan, last_addr_snoc in Hhd. rewrite Hspan in Hpost.
  rewrite <- app_assoc in Hch. cbn [app] in Hch.
  destruct (chain_heap_split _ _ _ _ Hch) as (Hs1 & Hpsz & Hs2 & Hsum & Hpre & Hhdp & _).
  unfold MEMORY_POOL_SIZE in *. cbn [fst snd span] in *.
  pose proof (chain_from_span _ _ _ _ _ Hpost) as Hs3.
  remember (last_addr memory_pool NULL l0) as pv eqn:Hpv.
  remember (memory_pool + span l0) as ap eqn:Hap.
  replace (memory_pool + (span l0 + header_size + psz))
    with (ap + header_size + psz) in * by lia.
  remember (ap + header_size + psz) as a eqn:Ha.
  unfold merge_prev. rewrite Hhd. cbn [mbind option_bind prev].
  rewrite (proj2 (Z.eqb_neq _ NULL)) by (unfold NULL; lia).
  rewrite Hhdp. cbn [mbind option_bind status size].
  destruct ps; [|rewrite bool_decide_eq_false_2 by done; exists hs; split; [done|];
                 by rewrite <- app_assoc].
  rewrite bool_decide_eq_true_2 by done.
  store_step. heap_lookup. rewrite Hhd. cbn [mbind option_bind next].
  store_step. heap_lookup. rewrite Hhd. cbn [mbind option_bind next].
  unfold set_size, set_next. cbn [size status next prev].
  rewrite insert_insert_eq. rewrite wrap_small by lia.
  assert (∀ hs3 : gmap Z MemoryBlockHeader,
    (∀ x, x < ap → hs3 !! x = hs !! x) →
    hs3 !! ap = Some (mkHeader (psz + (header_size + sz)) FREE
                        (match l2 with [] => NULL | _ :: _ => a + header_size + sz end) pv) →
    chain_from hs3 (a + header_size + sz) ap l2 NULL →
    chain_heap hs3 (l0 ++ (psz + (header_size + sz), FREE) :: l2)) as Hfinal.
  { intros hs3 Hsame Ha' Hrest. split.
    - apply chain_from_app. rewrite <- Hap, <- Hpv. split.
      + eapply chain_from_frame; [|exact Hpre]. intros x Hx. apply Hsame; lia.
      + cbn [chain_from fst snd]. split; [lia|]. split.
        { rewrite Ha'. destruct l2; [done|]. do 2 f_equal. lia. }
        replace (ap + header_size + (psz + (header_size + sz)))
          with (a + header_size + sz) by lia. done.
    - rewrite span_app. unfold MEMORY_POOL_SIZE. simpl. lia. }
  destruct l2 as [|b3 l3].
  - cbn [Z.eqb NULL]. eexists. split; [reflexivity|].
    apply Hfinal; [intros x ?|..]; by heap_lookup.
  - pose proof (chain_from_span_pos _ _ _ _ _ _ Hpost) as [? ?].
    rewrite (proj2 (Z.eqb_neq _ NULL)) by (unfold NULL; lia).
    pose proof Hpost as (_ & Hhd3 & _).
    store_step. eexists. split; [reflexivity|].
    apply Hfinal; [intros x ?; by heap_lookup|by heap_lookup|].
    apply (chain_from_set_prev _ _ a); [|by heap_lookup].
    eapply chain_from_frame; [|exact Hpost]. intros x Hx. by heap_lookup.
Qed.

(** The pointer passes the tests of lines 131 and 141 when it is the data
    address of a block of the chain. *)
Lemma handle_in_pool hs l1 b l2 :
  chain_heap hs (l1 ++ b :: l2) →
  let ptr := memory_pool + span l1 + header_size in
  (ptr =? NULL) = false ∧ wrap (ptr - header_size) = memory_pool + span l1 ∧
  ((wrap (ptr - header_size) <? memory_pool)
   || (wrap (memory_pool + MEMORY_POOL_SIZE) <=? wrap (ptr - header_size))) = false.
Proof.
  pose proof pool_bounds as (Hh & Hb & He). pose proof pow_w_large as Hw.
  intros Hch ptr.
  destruct (chain_heap_split _ _ _ _ Hch) as (Hs1 & Hsz & Hs2 & Hsum & _).
  unfold MEMORY_POOL_SIZE in *.
  assert (wrap (ptr - header_size) = memory_pool + span l1) as ->
    by (subst ptr; rewrite wrap_small; lia).
  rewrite (wrap_small (memory_pool + 1024 * 10)) by lia.
  split; [apply Z.eqb_neq; unfold NULL; subst ptr; lia|]. split; [done|].
  apply orb_false_iff. rewrite Z.ltb_ge, Z.leb_gt. lia.
Qed.

Lemma My_Free_chain st l1 sz s0 l2 :
  chain st (l1 ++ (sz, s0) :: l2) →
  ∃ st', My_Free st (memory_pool + span l1 + header_size) = Some ([], st') ∧
         chain st' (release_blocks l1 sz l2).
Proof.
  intros (Hi & Hf & Hheap).
  destruct (handle_in_pool _ _ _ _ Hheap) as (Hnull & Hblock & Hrange).
  unfold My_Free. rewrite Hnull, Hrange, Hblock.
  destruct (mark_block _ _ _ _ FREE _ Hheap) as (hs1 & -> & H1).
  destruct (merge_next_chain _ _ _ _ _ H1) as (hs2 & H2 & H2').
  cbn [mbind option_bind]. rewrite H2. cbn [mbind option_bind].
  destruct (merge_prev_chain _ _ _ _ H2') as (hs3 & H3 & H3').
  rewrite H3. cbn [mbind option_bind].
  eexists. split; [reflexivity|]. by split.
Qed.

(** ** [Memory_Init] and [Memory_Stats] on a chain *)

Lemma Memory_Init_chain st :
  is_initialized st = 0 → chain (Memory_Init st) [(MEMORY_POOL_SIZE - header_size, FREE)].
Proof.
  pose proof pool_bounds as (Hh & Hb & He). pose proof pow_w_large as Hw.
  unfold MEMORY_POOL_SIZE in *.
  intros Hi. unfold Memory_Init. rewrite Hi. cbn [Z.eqb negb].
  rewrite wrap_small by (unfold MEMORY_POOL_SIZE; lia).
  split; [done|]. split; [done|]. cbn [headers]. split.
  - cbn. split; [unfold MEMORY_POOL_SIZE; lia|]. split; [|done].
    by rewrite lookup_insert_eq.
  - unfold MEMORY_POOL_SIZE. simpl. lia.
Qed.

Lemma Memory_Init_initialized st : is_initialized st ≠ 0 → Memory_Init st = st.
Proof.
  intros Hi. unfold Memory_Init. by rewrite (proj2 (Z.eqb_neq _ 0) Hi).
Qed.

Lemma free_bytes_le_span hs a p bs t :
  chain_from hs a p bs t → 0 ≤ free_bytes bs ≤ span bs.
Proof.
  pose proof header_positive.
  revert a p. induction bs as [|b bs IH]; intros a p; simpl; [lia|].
  intros (? & _ & Hrest). apply IH in Hrest. case_bool_decide; lia.
Qed.

Lemma free_count_cons (b : Block) bs :
  free_count (b :: bs) = (if bool_decide (b.2 = FREE) then 1 else 0) + free_count bs.
Proof.
  unfold free_count. rewrite filter_cons.
  case_bool_decide; destruct (decide _); try done; simpl; lia.
Qed.

Lemma stats_loop_chain hs bs a p acc fuel :
  bs ≠ [] →
  0 < a → a + span bs < 2 ^ w → 0 ≤ total_free acc →
  total_free acc + span bs < 2 ^ w →
  chain_from hs a p bs NULL →
  stats_loop (length bs + S fuel) hs a acc =
    Some {| rows := rows acc ++ listing a bs;
            block_count := block_count acc + Z.of_nat (length bs);
            free_blocks := free_blocks acc + free_count bs;
            total_free := total_free acc + free_bytes bs |}.
Proof.
  pose proof header_positive.
  revert a p acc. induction bs as [|b bs IH]; intros a p acc Hne Ha Hend Hacc Htot Hc; [done|].
  pose proof (chain_from_span_pos _ _ _ _ _ _ Hc) as [? ?].
  pose proof Hc as (_ & Hhd & Hrest).
  pose proof (chain_from_span _ _ _ _ _ Hrest).
  pose proof (free_bytes_le_span _ _ _ _ _ Hrest).
  cbn [span] in *.
  cbn [length Nat.add stats_loop].
  rewrite (proj2 (Z.eqb_neq a NULL)) by (unfold NULL; lia).
  rewrite Hhd. cbn [size status next rows block_count free_blocks total_free].
  rewrite (wrap_small (a + header_size)) by lia.
  destruct bs as [|c bs].
  - cbn [length Nat.add stats_loop Z.eqb NULL listing free_bytes].
    rewrite free_count_cons. unfold free_count. cbn [filter list_filter length].
    case_bool_decide; [rewrite wrap_small by lia|]; do 2 f_equal; lia.
  - assert (0 ≤ (if bool_decide (b.2 = FREE)
                 then wrap (total_free acc + b.1) else total_free acc)
            ∧ (if bool_decide (b.2 = FREE)
               then wrap (total_free acc + b.1) else total_free acc)
              = total_free acc + (if bool_decide (b.2 = FREE) then b.1 else 0)) as [? Heq].
    { case_bool_decide; [rewrite wrap_small by lia|]; lia. }
    rewrite (IH _ a); cbn [rows block_count free_blocks total_free];
      [|done|lia|lia|lia|case_bool_decide; lia|done].
    rewrite (free_count_cons b), <- app_assoc, Heq.
    cbn [app listing free_bytes length]. do 2 f_equal; try lia.
    case_bool_decide; lia.
Qed.

Lemma Memory_Stats_chain st bs :
  chain st bs →
  Memory_Stats st =
    Some {| rows := listing memory_pool bs;
            block_count := Z.of_nat (length bs);
            free_blocks := free_count bs;
            total_free := free_bytes bs |}.
Proof.
  pose proof pool_bounds as (Hh & Hb & He).
  intros (_ & Hf & Hheap). pose proof (chain_nonempty _ _ Hheap).
  destruct Hheap as [Hfrom Hsp].
  pose proof (chain_from_length _ _ _ _ _ Hfrom) as Hlen.
  unfold Memory_Stats, chain_fuel. rewrite Hf.
  replace (S (stdpp.base.size (headers st)))
    with (length bs + S (stdpp.base.size (headers st) - length bs))%nat by lia.
  erewrite stats_loop_chain; [done|done|lia|lia|done|simpl; lia|done].
Qed.

(** ** Free neighbours *)

Lemma no_adjacent_free_cons2 (b c : Block) l :
  no_adjacent_free (b :: c :: l) ↔
  ¬ (b.2 = FREE ∧ c.2 = FREE) ∧ no_adjacent_free (c :: l).
Proof. reflexivity. Qed.

Lemma no_adjacent_free_app l1 l2 :
  no_adjacent_free (l1 ++ l2) ↔
  no_adjacent_free l1 ∧ no_adjacent_free l2 ∧
  ∀ x y, last l1 = Some x → head l2 = Some y → ¬ (x.2 = FREE ∧ y.2 = FREE).
Proof.
  induction l1 as [|b l1 IH].
  - cbn [app last]. split.
    + intros ?. split; [done|]. split; [done|]. by intros ? ? [=].
    + by intros (_ & ? & _).
  - change (no_adjacent_free ((b :: l1) ++ l2))
      with (match l1 ++ l2 with
            | [] => True
            | b' :: _ => ¬ (b.2 = FREE ∧ b'.2 = FREE)
            end ∧ no_adjacent_free (l1 ++ l2)).
    rewrite IH. clear IH. destruct l1 as [|c l1].
    + destruct l2 as [|d l2]; cbn [app last head].
      * split; intros _; (split; [by simpl|]); split; try done; by intros ? ? ? [=].
      * split.
        -- intros (Hbd & _ & Hn & _). split; [by simpl|]. split; [exact Hn|].
           by intros x y [= <-] [= <-].
        -- intros (_ & Hn & Hb). split; [by apply Hb|]. split; [by simpl|].
           split; [exact Hn|]. by intros ? ? [=].
    + change (no_adjacent_free (b :: c :: l1))
        with (¬ (b.2 = FREE ∧ c.2 = FREE) ∧ no_adjacent_free (c :: l1)).
      cbn [app last]. split.
      * intros (H1 & H2 & H3 & H4). split; [by split|]. split; [exact H3|exact H4].
      * intros ((H1 & H2) & H3 & H4). split; [exact H1|]. split; [exact H2|].
        split; [exact H3|exact H4].
Qed.

(** An allocation keeps free blocks apart. *)
Lemma allocate_blocks_no_adjacent_free l1 csz r l2 :
  no_adjacent_free (l1 ++ (csz, FREE) :: l2) →
  no_adjacent_free (allocate_blocks l1 csz r l2).
Proof.
  unfold allocate_blocks. rewrite no_adjacent_free_app.
  intros (H1 & H2 & Hb).
  assert (no_adjacent_free l2) as Hl2 by (cbn [no_adjacent_free] in H2; tauto).
  destruct (_ <=? _); apply no_adjacent_free_app; (split; [exact H1|]); split.
  - cbn [no_adjacent_free snd]. split; [by intros [? _]|]. split; [|exact Hl2].
    cbn [no_adjacent_free snd] in H2. tauto.
  - intros x y _ [= <-]. cbn [snd]. by intros [_ ?].
  - cbn [no_adjacent_free snd]. split; [|exact Hl2]. destruct l2; [done|]. by intros [? _].
  - intros x y _ [= <-]. cbn [snd]. by intros [_ ?].
Qed.

(** A release leaves no two free neighbours, when there were none. *)
Lemma release_blocks_no_adjacent_free l1 sz s0 l2 :
  no_adjacent_free (l1 ++ (sz, s0) :: l2) →
  no_adjacent_free (release_blocks l1 sz l2).
Proof.
  unfold release_blocks, absorb_prev. rewrite no_adjacent_free_app.
  intros (H1 & H2 & Hb).
  assert (no_adjacent_free (absorb_next sz l2).2 ∧
          ∀ y, head (absorb_next sz l2).2 = Some y → y.2 ≠ FREE) as [Hr Hhd].
  { destruct l2 as [|[nsz [|]] l2']; cbn [absorb_next fst snd head].
    - split; [done|]. by intros ? [=].
    - destruct l2' as [|d l3]; cbn [head].
      + split; [done|]. by intros ? [=].
      + rewrite !no_adjacent_free_cons2 in H2. cbn [snd] in H2.
        destruct H2 as (_ & Hd & H2). split; [exact H2|].
        intros y [= <-] ?. by apply Hd.
    - rewrite no_adjacent_free_cons2 in H2. split; [tauto|]. by intros y [= <-]. }
  destruct l1 as [|[psz ps] l0 _] using rev_ind.
  - cbn [last app no_adjacent_free snd]. split; [|done].
    destruct (absorb_next sz l2).2 as [|d ?]; [done|].
    cbn [snd]. intros [_ ?]. by eapply Hhd.
  - rewrite last_snoc. apply no_adjacent_free_app in H1 as (H0 & _ & Hb0).
    assert (no_adjacent_free (((absorb_next sz l2).1, FREE) :: (absorb_next sz l2).2))
      as Hmid.
    { cbn [no_adjacent_free snd]. split; [|done].
      destruct (absorb_next sz l2).2 as [|d ?]; [done|].
      cbn [snd]. intros [_ ?]. by eapply Hhd. }
    destruct ps.
    + rewrite removelast_last. apply no_adjacent_free_app. split; [done|]. split.
      * cbn [no_adjacent_free snd] in *. split; [|tauto].
        destruct (absorb_next sz l2).2 as [|d ?]; [done|]. tauto.
      * intros x y Hx [= <-]. cbn [snd]. intros [? _]. by eapply Hb0.
    + rewrite <- app_assoc. cbn [app]. apply no_adjacent_free_app.
      split; [done|]. split.
      * cbn [no_adjacent_free snd]. split; [|done]. by intros [? _].
      * intros x y Hx [= <-]. cbn [snd]. intros [_ ?]. done.
Qed.

(** ** Handles in use *)

Lemma handles_app a l1 l2 :
  handles a (l1 ++ l2) = handles a l1 ++ handles (a + span l1) l2.
Proof.
  revert a. induction l1 as [|b l1 IH]; intros a; cbn [app handles span].
  - by rewrite Z.add_0_r.
  - rewrite IH, <- app_assoc. do 3 f_equal. lia.
Qed.

Lemma handles_eq a a' bs : a = a' → handles a bs = handles a' bs.
Proof. by intros ->. Qed.

Lemma handles_cons_allocated a sz l :
  handles a ((sz, ALLOCATED) :: l) = (a + header_size) :: handles (a + header_size + sz) l.
Proof. reflexivity. Qed.

Lemma handles_cons_free a sz l :
  handles a ((sz, FREE) :: l) = handles (a + header_size + sz) l.
Proof. reflexivity. Qed.

(** An allocation adds the pointer it returns to the handles in use. *)
Lemma handles_allocate_blocks l1 csz r l2 :
  handles memory_pool (allocate_blocks l1 csz r l2) ≡ₚ
  (memory_pool + span l1 + header_size) :: handles memory_pool (l1 ++ (csz, FREE) :: l2).
Proof.
  unfold allocate_blocks. destruct (_ <=? _); rewrite !handles_app;
    rewrite ?handles_cons_allocated, ?handles_cons_free;
    rewrite <- Permutation_middle; [|done].
  by rewrite (handles_eq (_ + (csz - r - header_size))
                (memory_pool + span l1 + header_size + csz)) by lia.
Qed.

Lemma handles_absorb_next a sz l2 :
  handles (a + header_size + (absorb_next sz l2).1) (absorb_next sz l2).2
  = handles (a + header_size + sz) l2.
Proof.
  destruct l2 as [|[nsz [|]] l2']; cbn [absorb_next fst snd]; try done.
  rewrite handles_cons_free. apply handles_eq. lia.
Qed.

Lemma handles_absorb_prev l1 sz rest :
  handles memory_pool (absorb_prev l1 sz rest)
  = handles memory_pool l1 ++ handles (memory_pool + span l1 + header_size + sz) rest.
Proof.
  unfold absorb_prev. destruct l1 as [|[psz ps] l0 _] using rev_ind.
  - cbn [last app span]. rewrite handles_cons_free. apply handles_eq. simpl. lia.
  - rewrite last_snoc. destruct ps.
    + rewrite removelast_last, !handles_app, span_app, !handles_cons_free.
      cbn [handles span fst]. rewrite app_nil_r. f_equal. apply handles_eq. lia.
    + rewrite handles_app, handles_cons_free. done.
Qed.

(** A release takes the pointer out of the handles in use, and nothing
    else. *)
Lemma handles_release_blocks l1 sz l2 :
  handles memory_pool (l1 ++ (sz, ALLOCATED) :: l2) ≡ₚ
  (memory_pool + span l1 + header_size) :: handles memory_pool (release_blocks l1 sz l2).
Proof.
  unfold release_blocks. rewrite handles_absorb_prev, handles_absorb_next, handles_app.
  rewrite handles_cons_allocated. by rewrite <- Permutation_middle.
Qed.

(** A handle in use is the data address of an allocated block. *)
Lemma handles_elem a bs p :
  p ∈ handles a bs →
  ∃ l1 sz l2, bs = l1 ++ (sz, ALLOCATED) :: l2 ∧ p = a + span l1 + header_size.
Proof.
  revert a. induction bs as [|[sz s] bs IH]; intros a; cbn [handles fst snd].
  - by intros ?%elem_of_nil.
  - rewrite elem_of_app. intros [Hin|Hin].
    + destruct s; cbn in Hin; [by apply elem_of_nil in Hin|].
      apply list_elem_of_singleton in Hin as ->.
      exists [], sz, bs. split; [done|]. simpl. lia.
    + apply IH in Hin as (l1 & sz' & l2 & -> & ->).
      exists ((sz, s) :: l1), sz', l2. split; [done|]. simpl. lia.
Qed.

Lemma handles_nil a bs : handles a bs = [] → Forall (λ b : Block, b.2 = FREE) bs.
Proof.
  revert a. induction bs as [|[sz s] bs IH]; intros a; [by constructor|].
  destruct s; [rewrite handles_cons_free|by rewrite handles_cons_allocated].
  intros H. constructor; [done|]. by eapply IH.
Qed.

(** A chain of free blocks that are kept apart is one block. *)
Lemma all_free_one_block hs bs :
  chain_heap hs bs → no_adjacent_free bs → Forall (λ b : Block, b.2 = FREE) bs →
  bs = [(MEMORY_POOL_SIZE - header_size, FREE)].
Proof.
  intros Hch Hn Hall. pose proof (chain_nonempty _ _ Hch).
  destruct Hch as [_ Hsp].
  destruct bs as [|[sz s] [|c bs]]; [done| |].
  - inversion Hall; subst. cbn in *. f_equal. f_equal; [lia|done].
  - apply no_adjacent_free_cons2 in Hn as [Hn _].
    inversion Hall as [|? ? ? Hall']; subst. inversion Hall'; subst. tauto.
Qed.

(** ** The calls, case by case *)

Lemma fits_true_iff r (b : Block) : fits r b = true ↔ b.2 = FREE ∧ r ≤ b.1.
Proof. unfold fits. by rewrite andb_true_iff, bool_decide_eq_true, Z.leb_le. Qed.

(** The three ways out of [My_Malloc], on a chain. *)
Lemma My_Malloc_cases st bs s :
  chain st bs →
  (align4 s = 0 ∧ My_Malloc st s = Some (ExitZeroSize, NULL, st)) ∨
  (align4 s ≠ 0 ∧ Forall (λ b, fits (align4 s) b = false) bs ∧
   My_Malloc st s = Some (ExitNotFound, NULL, st)) ∨
  (align4 s ≠ 0 ∧ ∃ l1 csz l2 st',
     bs = l1 ++ (csz, FREE) :: l2 ∧ Forall (λ b, fits (align4 s) b = false) l1 ∧
     align4 s ≤ csz ∧
     My_Malloc st s = Some (ExitFound, memory_pool + span l1 + header_size, st') ∧
     chain st' (allocate_blocks l1 csz (align4 s) l2)).
Proof.
  intros Hc. destruct (decide (align4 s = 0)) as [Hz|Hnz].
  { left. split; [done|]. by eapply My_Malloc_zero. }
  right. destruct (first_fit_cases (align4 s) bs)
    as [Hno|(l1 & [csz cs] & l2 & -> & Hno & [Hfree Hle]%fits_true_iff)].
  - left. split; [done|]. split; [done|]. by eapply My_Malloc_exhaust.
  - right. split; [done|]. cbn [fst snd] in *. subst cs.
    destruct (My_Malloc_found _ _ _ _ _ Hc Hnz Hle Hno) as (st' & Hm & Hc').
    by exists l1, csz, l2, st'.
Qed.

(** The header of a block of the chain and those of its neighbours. *)
Lemma chain_block st l1 b l2 :
  chain st (l1 ++ b :: l2) →
  let a := memory_pool + span l1 in
  ∃ h, headers st !! a = Some h ∧ size h = b.1 ∧ status h = b.2 ∧ 0 ≤ size h ∧
    memory_pool ≤ a ∧ a + header_size + size h ≤ memory_pool + MEMORY_POOL_SIZE ∧
    (l2 = [] → next h = NULL ∧ a + header_size + size h = memory_pool + MEMORY_POOL_SIZE) ∧
    (∀ c l3, l2 = c :: l3 →
       next h = a + header_size + size h ∧
       ∃ h', headers st !! next h = Some h' ∧ prev h' = a ∧ size h' = c.1 ∧ status h' = c.2) ∧
    (l1 = [] → prev h = NULL ∧ a = memory_pool) ∧
    (∀ l0 c, l1 = l0 ++ [c] →
       prev h = memory_pool + span l0 ∧ prev h + header_size + c.1 = a ∧
       ∃ h', headers st !! prev h = Some h' ∧ next h' = a ∧ size h' = c.1 ∧ status h' = c.2).
Proof.
  intros (_ & _ & Hheap) a.
  destruct (chain_heap_split _ _ _ _ Hheap) as (Hs1 & Hsz & Hs2 & Hsum & Hpre & Hhd & Hpost).
  fold a in Hhd, Hpost, Hpre.
  eexists. split; [exact Hhd|]. cbn [size status next prev].
  do 3 (split; [done|]). split; [lia|]. split; [lia|]. split; [|split; [|split]].
  - intros ->. cbn [span] in Hsum. split; [done|]. lia.
  - intros c l3 ->. split; [done|].
    destruct Hpost as (_ & Hhd2 & _). eexists. split; [exact Hhd2|]. done.
  - intros ->. cbn [last_addr]. split; [done|]. subst a. simpl. lia.
  - intros l0 c ->. rewrite last_addr_snoc.
    rewrite <- app_assoc in Hheap. cbn [app] in Hheap.
    destruct (chain_heap_split _ _ _ _ Hheap) as (_ & _ & _ & _ & _ & Hhd0 & _).
    assert (memory_pool + span l0 + header_size + c.1 = a) as Ha
      by (subst a; rewrite span_app; simpl; lia).
    split; [done|]. split; [done|]. eexists. split; [exact Hhd0|].
    cbn [size status next prev]. by rewrite Ha.
Qed.

(** Allocations keep the chain, keep free blocks apart, and put the
    pointers they return among the handles in use. *)
Lemma malloc_all_chain sizes st bs ps st' :
  chain st bs → no_adjacent_free bs →
  malloc_all st sizes = Some (ps, st') →
  ∃ bs', chain st' bs' ∧ no_adjacent_free bs' ∧
         handles memory_pool bs' ≡ₚ ps ++ handles memory_pool bs.
Proof.
  revert st bs ps st'. induction sizes as [|s sizes IH]; intros st bs ps st' Hc Hn.
  - intros [= <- <-]. by exists bs.
  - cbn [malloc_all].
    destruct (My_Malloc_cases st bs s Hc)
      as [[_ ->]|[(_ & _ & ->)|(_ & l1 & csz & l2 & st1 & -> & _ & _ & -> & Hc1)]];
      [done..|].
    destruct (malloc_all st1 sizes) as [[ps1 st2]|] eqn:Hrest; [|done].
    intros [= <- <-].
    destruct (IH _ _ _ _ Hc1 (allocate_blocks_no_adjacent_free _ _ _ _ Hn) Hrest)
      as (bs' & Hc' & Hn' & Hperm).
    exists bs'. split; [done|]. split; [done|].
    rewrite Hperm, handles_allocate_blocks. cbn [app].
    by rewrite <- Permutation_middle.
Qed.

(** The release of all the handles in use, in any order, leaves a chain
    with no allocated block. *)
Lemma free_all_chain qs st bs :
  chain st bs → no_adjacent_free bs → qs ≡ₚ handles memory_pool bs →
  ∃ st' bs', free_all st qs = Some st' ∧ chain st' bs' ∧ no_adjacent_free bs' ∧
             handles memory_pool bs' = [].
Proof.
  revert st bs. induction qs as [|q qs IH]; intros st bs Hc Hn Hperm.
  - exists st, bs. split; [done|]. split; [done|]. split; [done|].
    by apply Permutation_nil_l in Hperm.
  - assert (q ∈ handles memory_pool bs) as Hin by (rewrite <- Hperm; left).
    apply handles_elem in Hin as (l1 & sz & l2 & -> & ->).
    destruct (My_Free_chain _ _ _ _ _ Hc) as (st1 & Hfree & Hc1).
    cbn [free_all]. rewrite Hfree.
    apply (IH _ _ Hc1 (release_blocks_no_adjacent_free _ _ _ _ Hn)).
    rewrite handles_release_blocks in Hperm. by apply Permutation_cons_inv in Hperm.
Qed.

(** ** Reachable statics *)

(** The implicit initialization of [My_Malloc] is that of [Memory_Init]. *)
Lemma My_Malloc_Memory_Init st s : My_Malloc (Memory_Init st) s = My_Malloc st s.
Proof.
  unfold My_Malloc. destruct (is_initialized st =? 0) eqn:Hi.
  - unfold Memory_Init at 1. rewrite Hi. cbn [negb].
    by replace (is_initialized (Memory_Init st) =? 0) with false
      by (unfold Memory_Init; rewrite Hi; done).
  - apply Z.eqb_neq in Hi. rewrite (Memory_Init_initialized _ Hi).
    by rewrite (proj2 (Z.eqb_neq _ 0) Hi).
Qed.

Lemma My_Free_NULL st : My_Free st NULL = Some ([], st).
Proof. reflexivity. Qed.

(** Reachable statics hold a chain whose free blocks are kept apart and
    whose allocated blocks are those of the pointers in use. *)
Lemma reachable_chain st ps :
  reachable st ps →
  ∃ bs, chain st bs ∧ no_adjacent_free bs ∧ ps ≡ₚ handles memory_pool bs.
Proof.
  induction 1 as [st Hi|st ps _ (bs & Hc & Hn & Hp)|st ps s p st' _ (bs & Hc & Hn & Hp) Hm
                 |st ps s e p st' _ (bs & Hc & Hn & Hp) He Hm
                 |st ps p qs out st' _ (bs & Hc & Hn & Hp) Hq Hf
                 |st ps out st' _ (bs & Hc & Hn & Hp) Hf].
  - eexists. split; [by apply Memory_Init_chain|]. by split.
  - exists bs. rewrite Memory_Init_initialized by apply Hc. done.
  - destruct (My_Malloc_cases st bs s Hc)
      as [[_ Hm']|[(_ & _ & Hm')|(_ & l1 & csz & l2 & st1 & -> & _ & _ & Hm' & Hc1)]];
      rewrite Hm' in Hm; try done.
    injection Hm as <- <-. eexists. split; [exact Hc1|].
    split; [by apply allocate_blocks_no_adjacent_free|].
    by rewrite handles_allocate_blocks, Hp.
  - destruct (My_Malloc_cases st bs s Hc)
      as [[_ Hm']|[(_ & _ & Hm')|(_ & l1 & csz & l2 & st1 & -> & _ & _ & Hm' & Hc1)]];
      rewrite Hm' in Hm; injection Hm as <- <- <-; [by exists bs..|done].
  - assert (p ∈ handles memory_pool bs) as Hin by (rewrite <- Hp, Hq; left).
    apply handles_elem in Hin as (l1 & sz & l2 & -> & ->).
    destruct (My_Free_chain _ _ _ _ _ Hc) as (st1 & Hfree & Hc1).
    rewrite Hfree in Hf. injection Hf as <- <-.
    eexists. split; [exact Hc1|].
    split; [by eapply release_blocks_no_adjacent_free|].
    rewrite Hq, handles_release_blocks in Hp. by apply Permutation_cons_inv in Hp.
  - rewrite My_Free_NULL in Hf. injection Hf as <- <-. by exists bs.
Qed.

(** [My_Malloc] and [My_Free] leave [is_initialized] as it is, once set. *)
Lemma malloc_loop_statics fuel st a r e p st' :
  malloc_loop fuel st a r = Some (e, p, st') → is_initialized st' = is_initialized st.
Proof.
  revert a. induction fuel as [|fuel IH]; intros a; cbn [malloc_loop]; [done|].
  repeat case_match; try done; [by intros [= <- <- <-]..|apply IH].
Qed.

Lemma My_Malloc_statics st s e p st' :
  is_initialized st ≠ 0 → My_Malloc st s = Some (e, p, st') →
  is_initialized st' = is_initialized st.
Proof.
  intros Hi. unfold My_Malloc. rewrite (proj2 (Z.eqb_neq _ 0) Hi).
  case_match; [by intros [= <- <- <-]|apply malloc_loop_statics].
Qed.

Lemma My_Free_statics st p out st' :
  My_Free st p = Some (out, st') → is_initialized st' = is_initialized st.
Proof.
  unfold My_Free. repeat case_match; try by intros [= <- <-].
  destruct (store _ _ _) as [hs1|]; [|done]. cbn [mbind option_bind].
  destruct (merge_next _ _) as [hs2|]; [|done]. cbn [mbind option_bind].
  destruct (merge_prev _ _) as [hs3|]; [|done]. cbn [mbind option_bind].
  by intros [= <- <-].
Qed.

Lemma malloc_all_statics sizes st ps st' :
  is_initialized st ≠ 0 → malloc_all st sizes = Some (ps, st') →
  is_initialized st' = is_initialized st.
Proof.
  revert st ps. induction sizes as [|s sizes IH]; intros st ps Hi; cbn [malloc_all].
  - by intros [= <- <-].
  - destruct (My_Malloc st s) as [[[[] p] st1]|] eqn:Hm; try done.
    destruct (malloc_all st1 sizes) as [[ps1 st2]|] eqn:Hrest; [|done].
    intros [= <- <-]. pose proof (My_Malloc_statics _ _ _ _ _ Hi Hm) as Hi1.
    rewrite <- Hi1. eapply IH; [|done]. by rewrite Hi1.
Qed.

Lemma free_all_statics qs st st' :
  free_all st qs = Some st' → is_initialized st' = is_initialized st.
Proof.
  revert st. induction qs as [|q qs IH]; intros st; cbn [free_all].
  - by intros [= <-].
  - destruct (My_Free st q) as [[[|? ?] st1]|] eqn:Hf; try done.
    intros Hrest. rewrite (IH _ Hrest). by eapply My_Free_statics.
Qed.

(** ** The properties of the specification *)

Lemma Forall_not_fits r (l : list Block) :
  Forall (λ b, ¬ (b.2 = FREE ∧ r ≤ b.1)) l → Forall (λ b, fits r b = false) l.
Proof.
  intros H. eapply Forall_impl; [exact H|]. intros b. by rewrite fits_false_iff.
Qed.

(** C1: on an initialized allocator whose pool holds the chain [bs],
    [My_Malloc] rounds the size up to the next multiple of 4 (as a
    [size_t]); a rounded size of 0 leaves through the zero-size return
    with a null pointer; otherwise the first block in address order that
    is free and at least as large as the rounded size is taken, and the
    pointer returned is the address right after its header; when no block
    is such, the call leaves through the last return with a null pointer
    and the statics are as before. *)
Theorem C1_My_Malloc_first_fit (st : State) (bs : list Block) (s : Z) :
  chain st bs →
  let r := align4 s in
  (∃ m, s ≤ m < s + 4 ∧ m mod 4 = 0 ∧ r = wrap m) ∧
  (r = 0 → My_Malloc st s = Some (ExitZeroSize, NULL, st)) ∧
  (r ≠ 0 → ∀ l1 c l2,
     bs = l1 ++ c :: l2 →
     Forall (λ b, ¬ (b.2 = FREE ∧ r ≤ b.1)) l1 → c.2 = FREE → r ≤ c.1 →
     ∃ h st',
       headers st !! (memory_pool + span l1) = Some h ∧ size h = c.1 ∧ status h = c.2 ∧
       My_Malloc st s = Some (ExitFound, memory_pool + span l1 + header_size, st')) ∧
  (r ≠ 0 → Forall (λ b, ¬ (b.2 = FREE ∧ r ≤ b.1)) bs →
     My_Malloc st s = Some (ExitNotFound, NULL, st)).
Proof.
  intros Hc r. split; [|split; [|split]].
  - exists (4 * ((s + 3) / 4)). split; [|split].
    + pose proof (Z.div_mod (s + 3) 4 ltac:(lia)).
      pose proof (Z.mod_pos_bound (s + 3) 4 ltac:(lia)). lia.
    + by rewrite Z.mul_comm, Z.mod_mul.
    + apply align4_spec.
  - intros Hz. by eapply My_Malloc_zero.
  - intros Hnz l1 [csz cs] l2 -> Hno Hfree Hle. cbn [fst snd] in *. subst cs.
    destruct (chain_block _ _ _ _ Hc) as (h & Hh & Hsz & Hst & _).
    destruct (My_Malloc_found _ _ _ _ _ Hc Hnz Hle (Forall_not_fits _ _ Hno))
      as (st' & Hm & _).
    by exists h, st'.
  - intros Hnz Hno. eapply My_Malloc_exhaust; [done..|]. by apply Forall_not_fits.
Qed.

(** C2: when [My_Malloc] takes the block [c], first fit of the chain, it
    splits it if and only if [c.size >= s + header_size + header_size],
    [s] the rounded size.  After a split the block has size [s], a new
    free block of size [c.size - s - header_size], no smaller than a
    header, follows it at the address where its [s] bytes end, with the
    old successor after it, whose [prev] is the new block.  Otherwise the
    block keeps its size and the chain its blocks. *)
Theorem C2_My_Malloc_split (st : State) (l1 l2 : list Block) (csz s : Z) :
  chain st (l1 ++ (csz, FREE) :: l2) →
  let r := align4 s in
  let a := memory_pool + span l1 in
  r ≠ 0 → r ≤ csz → Forall (λ b, ¬ (b.2 = FREE ∧ r ≤ b.1)) l1 →
  ∃ st', My_Malloc st s = Some (ExitFound, a + header_size, st') ∧
    (r + header_size + header_size ≤ csz →
       chain st' (l1 ++ (r, ALLOCATED) :: (csz - r - header_size, FREE) :: l2) ∧
       header_size ≤ csz - r - header_size ∧
       (∃ h, headers st' !! a = Some h ∧ size h = r ∧ status h = ALLOCATED ∧
             next h = a + header_size + r) ∧
       (∃ h, headers st' !! (a + header_size + r) = Some h ∧
             size h = csz - r - header_size ∧ status h = FREE ∧ prev h = a ∧
             next h = match l2 with [] => NULL | _ :: _ => a + header_size + csz end) ∧
       (l2 ≠ [] → ∃ h, headers st' !! (a + header_size + csz) = Some h ∧
                       prev h = a + header_size + r)) ∧
    (csz < r + header_size + header_size →
       chain st' (l1 ++ (csz, ALLOCATED) :: l2) ∧
       ∃ h, headers st' !! a = Some h ∧ size h = csz ∧ status h = ALLOCATED).
Proof.
  intros Hc r a Hnz Hle Hno. subst a.
  destruct (My_Malloc_found _ _ _ _ _ Hc Hnz Hle (Forall_not_fits _ _ Hno))
    as (st' & Hm & Hc').
  exists st'. split; [exact Hm|]. fold r in Hc'. unfold allocate_blocks in Hc'. split.
  - intros Hsplit. rewrite (proj2 (Z.leb_le _ _) Hsplit) in Hc'.
    split; [exact Hc'|]. split; [lia|].
    destruct (chain_block _ _ _ _ Hc') as (h & Hh & Hsz & Hst & _ & _ & _ & _ & Hnx & _).
    destruct (Hnx _ _ eq_refl) as (Hn & h' & Hh' & Hpv & Hsz' & Hst').
    cbn [fst snd] in *. rewrite Hn, Hsz in Hh'. split; [|split].
    + exists h. rewrite Hn, Hsz. done.
    + exists h'. do 4 (split; [done|]).
      change (l1 ++ (r, ALLOCATED) :: (csz - r - header_size, FREE) :: l2)
        with (l1 ++ [(r, ALLOCATED)] ++ (csz - r - header_size, FREE) :: l2) in Hc'.
      rewrite app_assoc in Hc'.
      destruct (chain_heap_split _ _ _ _ (proj2 (proj2 Hc'))) as (_ & _ & _ & _ & _ & Hh2 & _).
      rewrite span_app in Hh2. cbn [span fst snd] in Hh2.
      replace (memory_pool + (span l1 + (header_size + r + 0)))
        with (memory_pool + span l1 + header_size + r) in Hh2 by lia.
      rewrite Hh' in Hh2. injection Hh2 as ->. cbn [next].
      destruct l2; [done|]. lia.
    + intros Hl2. destruct l2 as [|c l3]; [done|].
      change (l1 ++ (r, ALLOCATED) :: (csz - r - header_size, FREE) :: c :: l3)
        with (l1 ++ [(r, ALLOCATED); (csz - r - header_size, FREE)] ++ c :: l3) in Hc'.
      rewrite app_assoc in Hc'.
      destruct (chain_block _ _ _ _ Hc') as (h2 & Hh2 & _ & _ & _ & _ & _ & _ & _ & _ & Hpv2).
      rewrite span_app in Hh2. cbn [span fst snd] in Hh2.
      replace (memory_pool + (span l1 + (header_size + r + (header_size + (csz - r - header_size) + 0))))
        with (memory_pool + span l1 + header_size + csz) in Hh2 by lia.
      exists h2. split; [done|].
      destruct (Hpv2 (l1 ++ [(r, ALLOCATED)]) (csz - r - header_size, FREE)) as (-> & _).
      { by rewrite <- app_assoc. }
      rewrite span_app. cbn [span fst]. lia.
  - intros Hno'. rewrite (proj2 (Z.leb_gt _ _) Hno') in Hc'. split; [exact Hc'|].
    destruct (chain_block _ _ _ _ Hc') as (h & Hh & Hsz & Hst & _).
    by exists h.
Qed.

(** C3: [My_Free] of the data address of a block of the chain marks the
    block free; the block then takes in its successor when that one is
    free (its size grows by [header_size] and the size of the successor,
    which leaves the chain); then the block before, when it is free, takes
    in the block in the same way.  With a free block on each side, one
    free block is left where the three were, of their sizes and two
    headers. *)
Theorem C3_My_Free_coalesce (st : State) (l1 l2 : list Block) (sz : Z) (s0 : BlockStatus) :
  chain st (l1 ++ (sz, s0) :: l2) →
  ∃ st',
    My_Free st (memory_pool + span l1 + header_size) = Some ([], st') ∧
    chain st' (absorb_prev l1 (absorb_next sz l2).1 (absorb_next sz l2).2) ∧
    (∀ nsz l3, l2 = (nsz, FREE) :: l3 →
       absorb_next sz l2 = (sz + (header_size + nsz), l3)) ∧
    ((l2 = [] ∨ ∃ nsz l3, l2 = (nsz, ALLOCATED) :: l3) → absorb_next sz l2 = (sz, l2)) ∧
    (∀ l0 psz sz' rest, l1 = l0 ++ [(psz, FREE)] →
       absorb_prev l1 sz' rest = l0 ++ (psz + (header_size + sz'), FREE) :: rest) ∧
    (∀ sz' rest, (l1 = [] ∨ ∃ l0 psz, l1 = l0 ++ [(psz, ALLOCATED)]) →
       absorb_prev l1 sz' rest = l1 ++ (sz', FREE) :: rest) ∧
    (∀ l0 psz nsz l3, l1 = l0 ++ [(psz, FREE)] → l2 = (nsz, FREE) :: l3 →
       chain st' (l0 ++ (psz + (header_size + (sz + (header_size + nsz))), FREE) :: l3) ∧
       span [(psz + (header_size + (sz + (header_size + nsz))), FREE)]
       = span [(psz, FREE); (sz, s0); (nsz, FREE)]).
Proof.
  intros Hc. destruct (My_Free_chain _ _ _ _ _ Hc) as (st' & Hfree & Hc').
  unfold release_blocks in Hc'.
  assert (∀ l0 psz sz' rest, l1 = l0 ++ [(psz, FREE)] →
            absorb_prev l1 sz' rest = l0 ++ (psz + (header_size + sz'), FREE) :: rest) as Hprev.
  { intros l0 psz sz' rest ->. unfold absorb_prev. by rewrite last_snoc, removelast_last. }
  exists st'. do 2 (split; [done|]). split; [|split; [|split; [|split]]].
  - by intros nsz l3 ->.
  - by intros [->|(nsz & l3 & ->)].
  - exact Hprev.
  - intros sz' rest [->|(l0 & psz & ->)]; unfold absorb_prev; [done|].
    by rewrite last_snoc.
  - intros l0 psz nsz l3 Hl1 ->. cbn [absorb_next fst snd] in Hc'.
    rewrite (Hprev _ _ _ _ Hl1) in Hc'. split; [done|]. simpl. lia.
Qed.

(** C4: [Memory_Init] sets up a chain, and [My_Malloc] and [My_Free] (of
    the data address of a block) turn a chain into a chain.  In a chain
    the first block is at the base of the pool, each block ends where the
    next one starts and the last one where the pool ends, [next] of a
    block is its successor, whose [prev] is the block, and [prev] of a
    block is its predecessor, whose [next] is the block; both are null
    where there is no neighbour. *)
Theorem C4_chain_invariant :
  (∀ st, is_initialized st = 0 →
     chain (Memory_Init st) [(MEMORY_POOL_SIZE - header_size, FREE)]) ∧
  (∀ st bs s, chain st bs →
     ∃ e p st' bs', My_Malloc st s = Some (e, p, st') ∧ chain st' bs') ∧
  (∀ st l1 sz s0 l2, chain st (l1 ++ (sz, s0) :: l2) →
     ∃ st' bs', My_Free st (memory_pool + span l1 + header_size) = Some ([], st') ∧
                chain st' bs') ∧
  (∀ st bs, chain st bs →
     first_block st = memory_pool ∧ span bs = MEMORY_POOL_SIZE ∧
     ∀ l1 b l2, bs = l1 ++ b :: l2 →
       let a := memory_pool + span l1 in
       ∃ h, headers st !! a = Some h ∧ size h = b.1 ∧ status h = b.2 ∧ 0 ≤ size h ∧
         memory_pool ≤ a ∧ a + header_size + size h ≤ memory_pool + MEMORY_POOL_SIZE ∧
         (l2 = [] →
            next h = NULL ∧ a + header_size + size h = memory_pool + MEMORY_POOL_SIZE) ∧
         (∀ c l3, l2 = c :: l3 →
            next h = a + header_size + size h ∧
            ∃ h', headers st !! next h = Some h' ∧ prev h' = a ∧
                  size h' = c.1 ∧ status h' = c.2) ∧
         (l1 = [] → prev h = NULL ∧ a = memory_pool) ∧
         (∀ l0 c, l1 = l0 ++ [c] →
            prev h = memory_pool + span l0 ∧ prev h + header_size + c.1 = a ∧
            ∃ h', headers st !! prev h = Some h' ∧ next h' = a ∧
                  size h' = c.1 ∧ status h' = c.2)).
Proof.
  split; [|split; [|split]].
  - apply Memory_Init_chain.
  - intros st bs s Hc.
    destruct (My_Malloc_cases st bs s Hc)
      as [[_ Hm]|[(_ & _ & Hm)|(_ & l1 & csz & l2 & st1 & -> & _ & _ & Hm & Hc1)]].
    + by exists ExitZeroSize, NULL, st, bs.
    + by exists ExitNotFound, NULL, st, bs.
    + by eexists ExitFound, _, st1, _.
  - intros st l1 sz s0 l2 Hc.
    destruct (My_Free_chain _ _ _ _ _ Hc) as (st' & Hfree & Hc'). by eexists st', _.
  - intros st bs Hc. split; [apply Hc|]. split; [apply Hc|].
    intros l1 b l2 ->. by apply chain_block.
Qed.

(** C5: when no two neighbours of the chain are both free, none are after
    [My_Free] of the data address of one of its blocks; this is so in all
    the statics that calls of the three functions reach, for the release
    of a pointer in use. *)
Theorem C5_My_Free_no_adjacent_free :
  (∀ st l1 sz s0 l2,
     chain st (l1 ++ (sz, s0) :: l2) →
     no_adjacent_free (l1 ++ (sz, s0) :: l2) →
     ∃ st' bs',
       My_Free st (memory_pool + span l1 + header_size) = Some ([], st') ∧
       chain st' bs' ∧ no_adjacent_free bs') ∧
  (∀ st ps p,
     reachable st ps → p ∈ ps →
     ∃ st' bs', My_Free st p = Some ([], st') ∧ chain st' bs' ∧ no_adjacent_free bs').
Proof.
  assert (∀ st l1 sz s0 l2,
     chain st (l1 ++ (sz, s0) :: l2) →
     no_adjacent_free (l1 ++ (sz, s0) :: l2) →
     ∃ st' bs',
       My_Free st (memory_pool + span l1 + header_size) = Some ([], st') ∧
       chain st' bs' ∧ no_adjacent_free bs') as Hstep.
  { intros st l1 sz s0 l2 Hc Hn.
    destruct (My_Free_chain _ _ _ _ _ Hc) as (st' & Hfree & Hc').
    exists st', (release_blocks l1 sz l2). split; [done|]. split; [done|].
    by eapply release_blocks_no_adjacent_free. }
  split; [exact Hstep|].
  intros st ps p (bs & Hc & Hn & Hp)%reachable_chain Hin.
  rewrite Hp in Hin. apply handles_elem in Hin as (l1 & sz & l2 & -> & ->).
  by eapply Hstep.
Qed.

(** C6: from the statics that [Memory_Init] sets up, calls of [My_Malloc]
    that each return a block, then [My_Free] of all the pointers returned,
    in any order, leave the chain as [Memory_Init] made it: one free block
    of [MEMORY_POOL_SIZE - header_size] bytes at the base of the pool, with
    null [next] and [prev]. *)
Theorem C6_round_trip (st0 : State) (sizes : list Z) (ps qs : list Z) (st1 : State) :
  is_initialized st0 = 0 →
  malloc_all (Memory_Init st0) sizes = Some (ps, st1) →
  qs ≡ₚ ps →
  ∃ st2,
    free_all st1 qs = Some st2 ∧
    chain st2 [(MEMORY_POOL_SIZE - header_size, FREE)] ∧
    first_block st2 = first_block (Memory_Init st0) ∧
    is_initialized st2 = is_initialized (Memory_Init st0) ∧
    headers st2 !! memory_pool = headers (Memory_Init st0) !! memory_pool ∧
    headers st2 !! memory_pool =
      Some (mkHeader (MEMORY_POOL_SIZE - header_size) FREE NULL NULL) ∧
    Memory_Stats st2 = Memory_Stats (Memory_Init st0) ∧
    Memory_Stats st2 =
      Some {| rows := [(memory_pool + header_size, MEMORY_POOL_SIZE - header_size, FREE)];
              block_count := 1; free_blocks := 1;
              total_free := MEMORY_POOL_SIZE - header_size |}.
Proof.
  intros Hi Hm Hq. pose proof (Memory_Init_chain _ Hi) as Hc0.
  destruct (malloc_all_chain _ _ _ _ _ Hc0 ltac:(by simpl) Hm) as (bs1 & Hc1 & Hn1 & Hp1).
  rewrite handles_cons_free in Hp1. cbn [handles] in Hp1. rewrite app_nil_r in Hp1.
  destruct (free_all_chain qs _ _ Hc1 Hn1) as (st2 & bs2 & Hf & Hc2 & Hn2 & Hh2).
  { by rewrite Hq, Hp1. }
  apply handles_nil in Hh2.
  pose proof (all_free_one_block _ _ (proj2 (proj2 Hc2)) Hn2 Hh2) as ->.
  exists st2. split; [done|]. split; [done|].
  assert (∀ st, chain st [(MEMORY_POOL_SIZE - header_size, FREE)] →
            headers st !! memory_pool
            = Some (mkHeader (MEMORY_POOL_SIZE - header_size) FREE NULL NULL)) as Hhd.
  { intros st (_ & _ & [(_ & Hh & _) _]). exact Hh. }
  pose proof Hc2 as (Hi2 & Hf2 & _). pose proof Hc0 as (_ & Hf0 & _).
  split; [by rewrite Hf2, Hf0|]. split.
  { rewrite (free_all_statics _ _ _ Hf).
    eapply malloc_all_statics; [apply Hc0|exact Hm]. }
  split; [by rewrite !Hhd|]. split; [by apply Hhd|].
  rewrite (Memory_Stats_chain _ _ Hc2), (Memory_Stats_chain _ _ Hc0).
  split; [done|]. cbn [listing free_bytes snd fst length].
  rewrite free_count_cons. cbn [snd]. rewrite bool_decide_eq_true_2 by done.
  do 2 f_equal. lia.
Qed.

(** C7: [Memory_Init] twice is [Memory_Init] once.  The first call puts
    one free block of [MEMORY_POOL_SIZE - header_size] bytes, with null
    [next] and [prev], at the base of the pool and sets [is_initialized];
    a call with [is_initialized] set changes nothing.  [Memory_Init] is a
    total function of the statics: it has no failure. *)
Theorem C7_Memory_Init_idempotent (st : State) :
  Memory_Init (Memory_Init st) = Memory_Init st ∧
  (is_initialized st = 0 →
     first_block (Memory_Init st) = memory_pool ∧
     is_initialized (Memory_Init st) = 1 ∧
     headers (Memory_Init st) =
       <[memory_pool := mkHeader (MEMORY_POOL_SIZE - header_size) FREE NULL NULL]>
         (headers st) ∧
     chain (Memory_Init st) [(MEMORY_POOL_SIZE - header_size, FREE)] ∧
     Memory_Stats (Memory_Init st) =
       Some {| rows := [(memory_pool + header_size, MEMORY_POOL_SIZE - header_size, FREE)];
               block_count := 1; free_blocks := 1;
               total_free := MEMORY_POOL_SIZE - header_size |}) ∧
  (is_initialized st ≠ 0 → Memory_Init st = st).
Proof.
  pose proof pool_bounds as (Hh & Hb & He). pose proof pow_w_large as Hw.
  split; [|split].
  - destruct (decide (is_initialized st = 0)) as [Hi|Hi].
    + apply Memory_Init_initialized. unfold Memory_Init. by rewrite Hi.
    + by rewrite !(Memory_Init_initialized _ Hi).
  - intros Hi. pose proof (Memory_Init_chain _ Hi) as Hc.
    rewrite (Memory_Stats_chain _ _ Hc).
    unfold Memory_Init. rewrite Hi. cbn [Z.eqb negb first_block is_initialized headers].
    rewrite wrap_small by (unfold MEMORY_POOL_SIZE in *; lia).
    do 3 (split; [done|]). split.
    + unfold Memory_Init in Hc. rewrite Hi in Hc. cbn [Z.eqb negb] in Hc.
      by rewrite wrap_small in Hc by (unfold MEMORY_POOL_SIZE in *; lia).
    + cbn [listing free_bytes snd fst length].
      rewrite free_count_cons. cbn [snd]. rewrite bool_decide_eq_true_2 by done.
      do 2 f_equal. lia.
  - apply Memory_Init_initialized.
Qed.

(** C8: [My_Free] of a null pointer changes nothing and prints nothing;
    [My_Free] of a pointer that, [header_size] bytes back, is below the
    pool or at or past its end prints the error line and changes
    nothing. *)
Theorem C8_My_Free_rejects (st : State) :
  My_Free st NULL = Some ([], st) ∧
  ∀ ptr, ptr ≠ NULL →
    let block := wrap (ptr - header_size) in
    block < memory_pool ∨ memory_pool + MEMORY_POOL_SIZE ≤ block →
    My_Free st ptr = Some ([outside_pool_message], st).
Proof.
  pose proof pool_bounds as (Hh & Hb & He).
  split; [reflexivity|]. intros ptr Hnull block Hout.
  unfold My_Free. rewrite (proj2 (Z.eqb_neq _ _) Hnull). fold block.
  rewrite (wrap_small (memory_pool + MEMORY_POOL_SIZE))
    by (unfold MEMORY_POOL_SIZE in *; lia).
  replace ((block <? memory_pool) || (memory_pool + MEMORY_POOL_SIZE <=? block))
    with true; [done|].
  symmetry. apply orb_true_iff. rewrite Z.ltb_lt, Z.leb_le. done.
Qed.

Lemma align4_multiple s : 0 ≤ s → s mod 4 = 0 → s + 3 < 2 ^ w → align4 s = s.
Proof.
  intros H0 Hm Hlt. rewrite align4_spec.
  pose proof (Z.div_mod s 4 ltac:(lia)) as Hs. rewrite Hm in Hs.
  replace ((s + 3) / 4) with (s / 4) by (apply Z.div_unique with 3; lia).
  rewrite wrap_small; lia.
Qed.

Lemma align4_top s : 2 ^ w - 3 ≤ s < 2 ^ w → align4 s = 0.
Proof.
  intros Hs. rewrite align4_spec. pose proof pow_w_split as Hsplit.
  replace ((s + 3) / 4) with (2 ^ (w - 2))
    by (apply Z.div_unique with (s + 3 - 2 ^ w); lia).
  unfold wrap. rewrite <- Hsplit. apply Z.mod_same.
  pose proof pow_w_large. lia.
Qed.

(** C9, as the code has it: on a platform whose header takes at most 1928
    bytes, the three allocations of 100, 200 and 300 bytes return three
    blocks one after the other from the base of the pool, whose data
    regions do not meet; after the release of the second, the chain has
    four blocks: the first and the third allocated, the second free with
    its 200 bytes and not merged, and the free remainder of the pool: two
    blocks are allocated and two are free. *)
Theorem C9_scenario_B :
  header_size ≤ 1928 →
  let p1 := memory_pool + header_size in
  let p2 := memory_pool + 2 * header_size + 100 in
  let p3 := memory_pool + 3 * header_size + 300 in
  let p4 := memory_pool + 4 * header_size + 600 in
  let rest := MEMORY_POOL_SIZE - 4 * header_size - 600 in
  ∃ st3 st4,
    scenario_A = Some (p1, p2, p3, st3) ∧
    chain st3 [(100, ALLOCATED); (200, ALLOCATED); (300, ALLOCATED); (rest, FREE)] ∧
    (p1 ≠ NULL ∧ p2 ≠ NULL ∧ p3 ≠ NULL) ∧
    (memory_pool + header_size ≤ p1 ∧ p1 + 100 + header_size ≤ p2 ∧
     p2 + 200 + header_size ≤ p3 ∧ p3 + 300 ≤ memory_pool + MEMORY_POOL_SIZE) ∧
    scenario_B = Some (p1, p2, p3, st4) ∧
    chain st4 [(100, ALLOCATED); (200, FREE); (300, ALLOCATED); (rest, FREE)] ∧
    scenario_B_report =
      Some {| rows := [(p1, 100, ALLOCATED); (p2, 200, FREE); (p3, 300, ALLOCATED);
                       (p4, rest, FREE)];
              block_count := 4; free_blocks := 2; total_free := 200 + rest |} ∧
    count_status ALLOCATED
      [(p1, 100, ALLOCATED); (p2, 200, FREE); (p3, 300, ALLOCATED); (p4, rest, FREE)] = 2%nat ∧
    count_status FREE
      [(p1, 100, ALLOCATED); (p2, 200, FREE); (p3, 300, ALLOCATED); (p4, rest, FREE)] = 2%nat.
Proof.
  intros Hhdr p1 p2 p3 p4 rest.
  pose proof pool_bounds as (Hh & Hb & He). pose proof pow_w_large as Hw.
  unfold MEMORY_POOL_SIZE in Hh, He.
  assert (align4 100 = 100 ∧ align4 200 = 200 ∧ align4 300 = 300) as (A1 & A2 & A3)
    by (repeat split; apply align4_multiple; (done || lia)).
  pose proof (Memory_Init_chain program_start eq_refl) as Hc0.
  (* first allocation *)
  destruct (My_Malloc_found _ [] _ [] 100 Hc0) as (st1 & Hm1 & Hc1);
    [rewrite A1; unfold MEMORY_POOL_SIZE; lia..|by constructor|].
  rewrite A1 in Hc1. unfold allocate_blocks in Hc1.
  rewrite (proj2 (Z.leb_le _ _)) in Hc1 by (unfold MEMORY_POOL_SIZE; lia).
  (* second allocation *)
  destruct (My_Malloc_found _ [(100, ALLOCATED)] _ [] 200 Hc1) as (st2 & Hm2 & Hc2);
    [rewrite A2; unfold MEMORY_POOL_SIZE; lia..|by repeat constructor|].
  rewrite A2 in Hc2. unfold allocate_blocks in Hc2.
  rewrite (proj2 (Z.leb_le _ _)) in Hc2 by (unfold MEMORY_POOL_SIZE; lia).
  (* third allocation *)
  destruct (My_Malloc_found _ [(100, ALLOCATED); (200, ALLOCATED)] _ [] 300 Hc2)
    as (st3 & Hm3 & Hc3);
    [rewrite A3; unfold MEMORY_POOL_SIZE; lia..|by repeat constructor|].
  rewrite A3 in Hc3. unfold allocate_blocks in Hc3.
  rewrite (proj2 (Z.leb_le _ _)) in Hc3 by (unfold MEMORY_POOL_SIZE; lia).
  cbn [app] in Hc3.
  replace (MEMORY_POOL_SIZE - header_size - 100 - header_size - 200 - header_size
           - 300 - header_size) with rest in Hc3 by (subst rest; unfold MEMORY_POOL_SIZE; lia).
  (* the release of the second block *)
  destruct (My_Free_chain st3 [(100, ALLOCATED)] 200 ALLOCATED
              [(300, ALLOCATED); (rest, FREE)] Hc3) as (st4 & Hf & Hc4).
  change (release_blocks [(100, ALLOCATED)] 200 [(300, ALLOCATED); (rest, FREE)])
    with [(100, ALLOCATED); (200, FREE); (300, ALLOCATED); (rest, FREE)] in Hc4.
  cbn [span fst] in Hm1, Hm2, Hm3, Hf.
  replace (memory_pool + 0 + header_size) with p1 in Hm1 by (subst p1; lia).
  replace (memory_pool + (header_size + 100 + 0) + header_size) with p2 in Hm2, Hf
    by (subst p2; lia).
  replace (memory_pool + (header_size + 100 + (header_size + 200 + 0)) + header_size)
    with p3 in Hm3 by (subst p3; lia).
  assert (scenario_A = Some (p1, p2, p3, st3)) as HA.
  { unfold scenario_A. rewrite Hm1. cbn [mbind option_bind].
    rewrite Hm2. cbn [mbind option_bind]. rewrite Hm3. done. }
  assert (scenario_B = Some (p1, p2, p3, st4)) as HB.
  { unfold scenario_B. rewrite HA. cbn [mbind option_bind]. rewrite Hf. done. }
  exists st3, st4. split; [done|]. split; [done|].
  split; [unfold NULL; subst p1 p2 p3; lia|].
  split; [subst p1 p2 p3; unfold MEMORY_POOL_SIZE; lia|].
  split; [done|]. split; [done|]. split; [|done].
  unfold scenario_B_report. rewrite HB. cbn [mbind option_bind].
  rewrite (Memory_Stats_chain _ _ Hc4).
  assert (free_count [(100, ALLOCATED); (200, FREE); (300, ALLOCATED); (rest, FREE)] = 2)
    as -> by (by vm_compute).
  assert (free_bytes [(100, ALLOCATED); (200, FREE); (300, ALLOCATED); (rest, FREE)]
          = 200 + rest) as ->.
  { cbn [free_bytes fst snd]. repeat case_bool_decide; try done. lia. }
  cbn [listing length fst snd]. subst p1 p2 p3 p4.
  do 2 f_equal. repeat (f_equal; try lia).
Qed.

(** C10, as the code has it: for the three largest values of [size_t] the
    rounding of line 65 wraps to 0, and [My_Malloc] leaves through the
    zero-size return with a null pointer, before the loop; the statics are
    then those that the implicit [Memory_Init] of line 61 leaves, which
    are the statics before the call when the allocator was initialized. *)
Theorem C10_My_Malloc_size_wraps (st : State) (s : Z) :
  2 ^ w - 3 ≤ s < 2 ^ w →
  align4 s = 0 ∧
  My_Malloc st s = Some (ExitZeroSize, NULL, Memory_Init st) ∧
  (is_initialized st ≠ 0 → My_Malloc st s = Some (ExitZeroSize, NULL, st)).
Proof.
  intros Hs. pose proof (align4_top s Hs) as Hz. split; [exact Hz|].
  assert (My_Malloc st s = Some (ExitZeroSize, NULL, Memory_Init st)) as Hm.
  { unfold My_Malloc. rewrite Hz. cbn [Z.eqb].
    destruct (is_initialized st =? 0) eqn:Hi; [done|].
    apply Z.eqb_neq in Hi. by rewrite (Memory_Init_initialized _ Hi). }
  split; [exact Hm|]. intros Hi. by rewrite Hm, (Memory_Init_initialized _ Hi).
Qed.

(** ** Regions in use *)

Lemma chain_from_sizes hs a p bs t :
  chain_from hs a p bs t → Forall (λ b : Block, 0 ≤ b.1) bs.
Proof.
  revert a p. induction bs as [|b bs IH]; intros a p; [by constructor|].
  intros (? & _ & Hrest). constructor; [done|]. by eapply IH.
Qed.

Lemma span_nonneg bs : Forall (λ b : Block, 0 ≤ b.1) bs → 0 ≤ span bs.
Proof.
  pose proof header_positive.
  induction 1 as [|b bs ? ? IH]; simpl; lia.
Qed.

Lemma allocated_app a l1 l2 :
  allocated a (l1 ++ l2) = allocated a l1 ++ allocated (a + span l1) l2.
Proof.
  revert a. induction l1 as [|b l1 IH]; intros a; cbn [app allocated span].
  - by rewrite Z.add_0_r.
  - rewrite IH, <- app_assoc. do 3 f_equal. lia.
Qed.

Lemma allocated_eq a a' bs : a = a' → allocated a bs = allocated a' bs.
Proof. by intros ->. Qed.

Lemma allocated_cons_allocated a sz l :
  allocated a ((sz, ALLOCATED) :: l)
  = (a + header_size, sz) :: allocated (a + header_size + sz) l.
Proof. reflexivity. Qed.

Lemma allocated_cons_free a sz l :
  allocated a ((sz, FREE) :: l) = allocated (a + header_size + sz) l.
Proof. reflexivity. Qed.

Lemma handles_allocated a bs : handles a bs = (allocated a bs).*1.
Proof.
  revert a. induction bs as [|[sz [|]] bs IH]; intros a; [done|..].
  - by rewrite handles_cons_free, allocated_cons_free.
  - rewrite handles_cons_allocated, allocated_cons_allocated. cbn [fmap list_fmap fst].
    f_equal. apply IH.
Qed.

(** A region in use is the data region of an allocated block of the
    chain. *)
Lemma allocated_elem a bs p n :
  (p, n) ∈ allocated a bs ↔
  ∃ l1 l2, bs = l1 ++ (n, ALLOCATED) :: l2 ∧ p = a + span l1 + header_size.
Proof.
  revert a p. induction bs as [|[sz s] bs IH]; intros a p.
  - split; [by intros ?%elem_of_nil|]. by intros ([|??] & ? & ? & _).
  - split.
    + destruct s; [rewrite allocated_cons_free|rewrite allocated_cons_allocated].
      * intros (l1 & l2 & -> & ->)%IH. exists ((sz, FREE) :: l1), l2.
        split; [done|]. simpl. lia.
      * intros [[= -> ->]|(l1 & l2 & -> & ->)%IH]%elem_of_cons.
        -- exists [], bs. split; [done|]. simpl. lia.
        -- exists ((sz, ALLOCATED) :: l1), l2. split; [done|]. simpl. lia.
    + intros ([|c l1] & l2 & Heq & ->).
      * injection Heq as -> -> ->. rewrite allocated_cons_allocated.
        replace (a + span [] + header_size) with (a + header_size) by (simpl; lia).
        left.
      * injection Heq as <- ->.
        assert ((a + span ((sz, s) :: l1) + header_size, n)
                ∈ allocated (a + header_size + sz) (l1 ++ (n, ALLOCATED) :: l2)) as Hin.
        { apply IH. exists l1, l2. split; [done|]. simpl. lia. }
        destruct s; [by rewrite allocated_cons_free|].
        rewrite allocated_cons_allocated. by right.
Qed.
Lemma allocated_allocate_blocks l1 csz r l2 :
  allocated memory_pool (allocate_blocks l1 csz r l2) ≡ₚ
  (memory_pool + span l1 + header_size,
   if r + header_size + header_size <=? csz then r else csz)
  :: allocated memory_pool (l1 ++ (csz, FREE) :: l2).
Proof.
  unfold allocate_blocks. destruct (_ <=? _); rewrite !allocated_app;
    rewrite ?allocated_cons_allocated, ?allocated_cons_free;
    rewrite <- Permutation_middle; [|done].
  by rewrite (allocated_eq (_ + (csz - r - header_size))
                (memory_pool + span l1 + header_size + csz)) by lia.
Qed.

Lemma allocated_absorb_next a sz l2 :
  allocated (a + header_size + (absorb_next sz l2).1) (absorb_next sz l2).2
  = allocated (a + header_size + sz) l2.
Proof.
  destruct l2 as [|[nsz [|]] l2']; cbn [absorb_next fst snd]; try done.
  rewrite allocated_cons_free. apply allocated_eq. lia.
Qed.

Lemma allocated_absorb_prev l1 sz rest :
  allocated memory_pool (absorb_prev l1 sz rest)
  = allocated memory_pool l1
    ++ allocated (memory_pool + span l1 + header_size + sz) rest.
Proof.
  unfold absorb_prev. destruct l1 as [|[psz ps] l0 _] using rev_ind.
  - cbn [last app span]. rewrite allocated_cons_free. apply allocated_eq. simpl. lia.
  - rewrite last_snoc. destruct ps.
    + rewrite removelast_last, !allocated_app, span_app, !allocated_cons_free.
      cbn [allocated span fst]. rewrite app_nil_r. f_equal. apply allocated_eq. lia.
    + rewrite allocated_app, allocated_cons_free. done.
Qed.

Lemma allocated_release_blocks l1 sz l2 :
  allocated memory_pool (l1 ++ (sz, ALLOCATED) :: l2) ≡ₚ
  (memory_pool + span l1 + header_size, sz)
  :: allocated memory_pool (release_blocks l1 sz l2).
Proof.
  unfold release_blocks.
  rewrite allocated_absorb_prev, allocated_absorb_next, allocated_app.
  rewrite allocated_cons_allocated. by rewrite <- Permutation_middle.
Qed.

(** The rounding of line 65 does not shrink a size, unless it wraps to 0. *)
Lemma align4_ge s : 0 ≤ s < 2 ^ w → align4 s ≠ 0 → s ≤ align4 s.
Proof.
  intros Hs Hnz. destruct (Z_lt_le_dec (s + 3) (2 ^ w)) as [Hlt|Hge].
  - rewrite align4_spec.
    pose proof (Z.div_mod (s + 3) 4 ltac:(lia)).
    pose proof (Z.mod_pos_bound (s + 3) 4 ltac:(lia)).
    rewrite wrap_small; lia.
  - destruct Hnz. apply align4_top. lia.
Qed.

Lemma align4_mod4 s : align4 s mod 4 = 0.
Proof.
  rewrite align4_spec. unfold wrap. rewrite pow_w_split.
  pose proof width_ge_2.
  assert (0 < 2 ^ (w - 2)) by (apply Z.pow_pos_nonneg; lia).
  rewrite Z.mul_mod_distr_l by lia. by rewrite Z.mul_comm, Z.mod_mul.
Qed.

(** Two prefixes of a list of blocks of sizes at least 0: the one that
    spans less is a prefix of the other. *)
Lemma span_prefix (l1 l2 l1' l2' : list Block) :
  Forall (λ b : Block, 0 ≤ b.1) (l1 ++ l2) →
  l1 ++ l2 = l1' ++ l2' → span l1 < span l1' →
  ∃ k, k ≠ [] ∧ l1' = l1 ++ k ∧ l2 = k ++ l2'.
Proof.
  pose proof header_positive.
  intros Hpos Heq Hlt. pose proof Hpos as Hpos'. rewrite Heq in Hpos'.
  apply app_eq_app in Heq as (k & [[-> ->]|[-> ->]]).
  - rewrite span_app in Hlt. apply Forall_app in Hpos as [Hp _].
    apply Forall_app in Hp as [_ Hk%span_nonneg]. lia.
  - exists k. split; [|done]. intros ->. rewrite app_nil_r in Hlt. lia.
Qed.

Lemma span_prefix_eq (l1 l2 l1' l2' : list Block) :
  Forall (λ b : Block, 0 ≤ b.1) (l1 ++ l2) →
  l1 ++ l2 = l1' ++ l2' → span l1 = span l1' → l1 = l1' ∧ l2 = l2'.
Proof.
  pose proof header_positive.
  intros Hpos Heq Hsp. pose proof Hpos as Hpos'. rewrite Heq in Hpos'.
  assert (∀ (c : Block) k, Forall (λ b : Block, 0 ≤ b.1) (c :: k) → 0 < span (c :: k)) as Hk.
  { intros c k Hck. inversion Hck as [|? ? ? Hk']; subst.
    apply span_nonneg in Hk'. simpl. lia. }
  apply app_eq_app in Heq as (k & [[-> ->]|[-> ->]]); destruct k as [|c k].
  - by rewrite app_nil_r.
  - rewrite span_app in Hsp. apply Forall_app in Hpos as [Hp _].
    apply Forall_app in Hp as [_ Hck%Hk]. lia.
  - by rewrite app_nil_r.
  - rewrite span_app in Hsp. apply Forall_app in Hpos' as [Hp _].
    apply Forall_app in Hp as [_ Hck%Hk]. lia.
Qed.
(** ** Further properties of the allocator *)

(** X1: on a chain, a call of [My_Malloc] that does not return a block
    returns a null pointer and leaves the statics as they were; one that
    does returns a pointer that is not null, to a region of the pool that
    holds the [s] bytes asked for: its size is the rounded size, or up to
    two headers more when the block was not split. *)
Theorem X1_My_Malloc_outcome (st : State) (bs : list Block) (s : Z)
    (e : MallocExit) (p : Z) (st' : State) :
  chain st bs → 0 ≤ s < 2 ^ w → My_Malloc st s = Some (e, p, st') →
  (e ≠ ExitFound → p = NULL ∧ st' = st) ∧
  (e = ExitFound →
     p ≠ NULL ∧
     ∃ bs' n, chain st' bs' ∧ (p, n) ∈ allocated memory_pool bs' ∧
              s ≤ n ∧ align4 s ≤ n < align4 s + 2 * header_size ∧
              memory_pool + header_size ≤ p ∧
              p + n ≤ memory_pool + MEMORY_POOL_SIZE).
Proof.
  pose proof pool_bounds as (Hh & Hb & He).
  intros Hc Hs Hm.
  destruct (My_Malloc_cases st bs s Hc)
    as [[_ Hm']|[(_ & _ & Hm')|(Hnz & l1 & csz & l2 & st1 & -> & _ & Hle & Hm' & Hc1)]];
    rewrite Hm' in Hm; injection Hm as <- <- <-.
  1,2: by split.
  (* a block was found *)
  split; [done|]. intros _.
  destruct (chain_heap_split _ _ _ _ (proj2 (proj2 Hc)))
    as (Hs1 & Hcsz & Hs2 & Hsum & _). cbn [fst] in *.
  pose proof (align4_ge s Hs Hnz) as Hge.
  split; [unfold NULL; lia|].
  exists (allocate_blocks l1 csz (align4 s) l2),
    (if align4 s + header_size + header_size <=? csz then align4 s else csz).
  split; [done|]. split; [rewrite allocated_allocate_blocks; left|].
  destruct (Z.leb_spec (align4 s + header_size + header_size) csz); lia.
Qed.

(** X2: a call of [My_Malloc] that returns a block leaves every region in
    use where it is, with its size, and adds the region it returns. *)
Theorem X2_My_Malloc_keeps_regions (st : State) (bs : list Block) (s p : Z)
    (st' : State) :
  chain st bs → My_Malloc st s = Some (ExitFound, p, st') →
  ∃ bs' n, chain st' bs' ∧
           allocated memory_pool bs' ≡ₚ (p, n) :: allocated memory_pool bs.
Proof.
  intros Hc Hm.
  destruct (My_Malloc_cases st bs s Hc)
    as [[_ Hm']|[(_ & _ & Hm')|(Hnz & l1 & csz & l2 & st1 & -> & _ & Hle & Hm' & Hc1)]];
    rewrite Hm' in Hm; [done..|]. injection Hm as <- <-.
  eexists _, _. split; [exact Hc1|]. apply allocated_allocate_blocks.
Qed.

(** X3: [My_Free] of the address of a region in use prints nothing, takes
    this region out of the regions in use and leaves the others where they
    are, with their sizes. *)
Theorem X3_My_Free_releases_region (st : State) (bs : list Block) (p n : Z) :
  chain st bs → (p, n) ∈ allocated memory_pool bs →
  ∃ st' bs', My_Free st p = Some ([], st') ∧ chain st' bs' ∧
             allocated memory_pool bs ≡ₚ (p, n) :: allocated memory_pool bs'.
Proof.
  intros Hc (l1 & l2 & -> & ->)%allocated_elem.
  destruct (My_Free_chain _ _ _ _ _ Hc) as (st' & Hf & Hc').
  exists st', (release_blocks l1 n l2). split; [done|]. split; [done|].
  apply allocated_release_blocks.
Qed.

(** X4: the regions in use of a chain lie in the pool, each right after
    the header of an allocated block that records its size, and any two of
    them are apart by at least a header. *)
Theorem X4_regions_apart (st : State) (bs : list Block) :
  chain st bs →
  (∀ p n, (p, n) ∈ allocated memory_pool bs →
     memory_pool + header_size ≤ p ∧ 0 ≤ n ∧
     p + n ≤ memory_pool + MEMORY_POOL_SIZE ∧
     ∃ h, headers st !! (p - header_size) = Some h ∧ size h = n ∧
          status h = ALLOCATED) ∧
  (∀ p n q m, (p, n) ∈ allocated memory_pool bs → (q, m) ∈ allocated memory_pool bs →
     p < q → p + n + header_size ≤ q) ∧
  (∀ p n m, (p, n) ∈ allocated memory_pool bs → (p, m) ∈ allocated memory_pool bs →
     n = m).
Proof.
  pose proof header_positive.
  intros Hc. pose proof (chain_from_sizes _ _ _ _ _ (proj1 (proj2 (proj2 Hc)))) as Hpos.
  split; [|split].
  - intros p n (l1 & l2 & -> & ->)%allocated_elem.
    destruct (chain_block _ _ _ _ Hc) as (h & Hh & Hsz & Hst & ? & ? & ? & _).
    cbn [fst snd] in *.
    replace (memory_pool + span l1 + header_size - header_size)
      with (memory_pool + span l1) by lia.
    split; [lia|]. split; [lia|]. split; [lia|]. by exists h.
  - intros p n q m (l1 & l2 & Hbs & ->)%allocated_elem
      (l1' & l2' & Hbs' & ->)%allocated_elem Hlt.
    rewrite Hbs in Hbs', Hpos.
    destruct (span_prefix _ _ _ _ Hpos Hbs' ltac:(lia)) as ([|c k] & Hk & -> & Hl2); [done|].
    injection Hl2 as <- ->.
    apply Forall_app in Hpos as [_ Hpos]. apply Forall_cons in Hpos as [_ Hpos].
    apply Forall_app in Hpos as [Hkpos%span_nonneg _].
    rewrite span_app. cbn [span fst]. lia.
  - intros p n m (l1 & l2 & Hbs & ->)%allocated_elem
      (l1' & l2' & Hbs' & Hp)%allocated_elem.
    rewrite Hbs in Hbs', Hpos.
    destruct (span_prefix_eq _ _ _ _ Hpos Hbs' ltac:(lia)) as [_ Heq].
    by injection Heq.
Qed.

(** A property of the sizes of the blocks that allocations and releases
    keep holds of all blocks of a chain that calls reach. *)
Lemma Forall_allocate_blocks (Q : Z → Prop) l1 csz r l2 :
  Forall (λ b : Block, Q b.1) (l1 ++ (csz, FREE) :: l2) →
  Q r → (r + header_size + header_size ≤ csz → Q (csz - r - header_size)) →
  Forall (λ b : Block, Q b.1) (allocate_blocks l1 csz r l2).
Proof.
  intros Hall Hr Hrest. unfold allocate_blocks.
  apply Forall_app in Hall as [H1 Hall]. apply Forall_cons in Hall as [Hc H2].
  destruct (Z.leb_spec (r + header_size + header_size) csz).
  - apply Forall_app. split; [done|]. repeat (constructor; [by auto|]). done.
  - apply Forall_app. split; [done|]. by constructor.
Qed.

Lemma Forall_release_blocks (Q : Z → Prop) l1 sz l2 :
  (∀ x y, Q x → Q y → Q (x + (header_size + y))) →
  Forall (λ b : Block, Q b.1) (l1 ++ (sz, ALLOCATED) :: l2) →
  Forall (λ b : Block, Q b.1) (release_blocks l1 sz l2).
Proof.
  intros Hadd Hall. unfold release_blocks, absorb_prev.
  apply Forall_app in Hall as [H1 Hall]. apply Forall_cons in Hall as [Hc H2].
  cbn [fst] in Hc.
  assert (Q (absorb_next sz l2).1 ∧ Forall (λ b : Block, Q b.1) (absorb_next sz l2).2)
    as [Hn Hrest].
  { destruct l2 as [|[nsz [|]] l2']; cbn [absorb_next fst snd]; [done| |done].
    apply Forall_cons in H2 as [? ?]. split; [by apply Hadd|done]. }
  destruct l1 as [|[psz ps] l0 _] using rev_ind.
  - cbn [last app]. by constructor.
  - rewrite last_snoc. apply Forall_app in H1 as [H0 Hp].
    apply Forall_cons in Hp as [Hp _]. cbn [fst] in Hp. destruct ps.
    + rewrite removelast_last. apply Forall_app. split; [done|].
      constructor; [by apply Hadd|done].
    + rewrite <- app_assoc. cbn [app]. apply Forall_app. split; [done|].
      constructor; [done|]. by constructor.
Qed.

Lemma reachable_blocks (I : list Block → Prop) :
  I [(MEMORY_POOL_SIZE - header_size, FREE)] →
  (∀ l1 csz l2 r, I (l1 ++ (csz, FREE) :: l2) → 0 < r → r mod 4 = 0 → r ≤ csz →
     I (allocate_blocks l1 csz r l2)) →
  (∀ l1 sz l2, I (l1 ++ (sz, ALLOCATED) :: l2) → I (release_blocks l1 sz l2)) →
  ∀ st ps, reachable st ps →
    ∃ bs, chain st bs ∧ no_adjacent_free bs ∧ ps ≡ₚ handles memory_pool bs ∧ I bs.
Proof.
  intros Hinit Halloc Hrel st ps.
  induction 1 as [st Hi|st ps _ (bs & Hc & Hn & Hp & HI)
                 |st ps s p st' _ (bs & Hc & Hn & Hp & HI) Hm
                 |st ps s e p st' _ (bs & Hc & Hn & Hp & HI) He Hm
                 |st ps p qs out st' _ (bs & Hc & Hn & Hp & HI) Hq Hf
                 |st ps out st' _ (bs & Hc & Hn & Hp & HI) Hf].
  - eexists. split; [by apply Memory_Init_chain|]. by repeat split.
  - exists bs. rewrite Memory_Init_initialized by apply Hc. done.
  - destruct (My_Malloc_cases st bs s Hc)
      as [[_ Hm']|[(_ & _ & Hm')|(Hnz & l1 & csz & l2 & st1 & -> & _ & Hle & Hm' & Hc1)]];
      rewrite Hm' in Hm; try done.
    injection Hm as <- <-. eexists. split; [exact Hc1|].
    split; [by apply allocate_blocks_no_adjacent_free|].
    split; [by rewrite handles_allocate_blocks, Hp|].
    apply Halloc; [done| |apply align4_mod4|done].
    pose proof (wrap_range (4 * ((s + 3) / 4))). rewrite <- align4_spec in *. lia.
  - destruct (My_Malloc_cases st bs s Hc)
      as [[_ Hm']|[(_ & _ & Hm')|(_ & l1 & csz & l2 & st1 & -> & _ & _ & Hm' & Hc1)]];
      rewrite Hm' in Hm; injection Hm as <- <- <-; [by exists bs..|done].
  - assert (p ∈ handles memory_pool bs) as Hin by (rewrite <- Hp, Hq; left).
    apply handles_elem in Hin as (l1 & sz & l2 & -> & ->).
    destruct (My_Free_chain _ _ _ _ _ Hc) as (st1 & Hfree & Hc1).
    rewrite Hfree in Hf. injection Hf as <- <-.
    eexists. split; [exact Hc1|].
    split; [by eapply release_blocks_no_adjacent_free|].
    split; [|by apply Hrel].
    rewrite Hq, handles_release_blocks in Hp. by apply Permutation_cons_inv in Hp.
  - rewrite My_Free_NULL in Hf. injection Hf as <- <-. by exists bs.
Qed.

Lemma handles_lower a bs p :
  Forall (λ b : Block, 0 ≤ b.1) bs → p ∈ handles a bs → a + header_size ≤ p.
Proof.
  pose proof header_positive.
  intros Hpos (l1 & sz & l2 & -> & ->)%handles_elem.
  apply Forall_app in Hpos as [?%span_nonneg _]. lia.
Qed.

Lemma handles_NoDup a bs : Forall (λ b : Block, 0 ≤ b.1) bs → NoDup (handles a bs).
Proof.
  pose proof header_positive.
  intros Hpos. revert a. induction Hpos as [|[sz s] bs Hsz Hpos IH]; intros a.
  - constructor.
  - cbn [fst] in Hsz. destruct s.
    + rewrite handles_cons_free. apply IH.
    + rewrite handles_cons_allocated. apply NoDup_cons. split; [|apply IH].
      intros Hin%handles_lower; [lia|done].
Qed.

(** X5: in the statics that calls of the three functions reach, the
    pointers returned by [My_Malloc] and not yet released are all
    different, none is null, and each lies in the pool right after the
    header of an allocated block, with a region of at least one byte that
    ends inside the pool. *)
Theorem X5_pointers_in_use (st : State) (ps : list Z) :
  reachable st ps →
  NoDup ps ∧
  ∀ p, p ∈ ps →
    p ≠ NULL ∧ memory_pool + header_size ≤ p < memory_pool + MEMORY_POOL_SIZE ∧
    ∃ h, headers st !! (p - header_size) = Some h ∧ status h = ALLOCATED ∧
         0 < size h ∧ p + size h ≤ memory_pool + MEMORY_POOL_SIZE.
Proof.
  pose proof pool_bounds as (Hh & Hb & He).
  intros Hr.
  destruct (reachable_blocks (Forall (λ b : Block, 0 < b.1))) with (st := st) (ps := ps)
    as (bs & Hc & _ & Hp & Hpos); [| | |done|].
  - constructor; [|done]. cbn [fst]. lia.
  - intros l1 csz l2 r Hall Hr0 _ Hle.
    apply (Forall_allocate_blocks (λ x, 0 < x)); [done|done|lia].
  - intros l1 sz l2. apply (Forall_release_blocks (λ x, 0 < x)). lia.
  - pose proof (chain_from_sizes _ _ _ _ _ (proj1 (proj2 (proj2 Hc)))) as Hnn.
    split; [rewrite Hp; by apply handles_NoDup|].
    intros p Hin. rewrite Hp in Hin.
    apply handles_elem in Hin as (l1 & sz & l2 & -> & ->).
    destruct (chain_block _ _ _ _ Hc) as (h & Hh' & Hsz & Hst & ? & ? & ? & _).
    apply Forall_app in Hpos as [_ Hpos]. apply Forall_cons in Hpos as [Hpos _].
    cbn [fst snd] in *.
    replace (memory_pool + span l1 + header_size - header_size)
      with (memory_pool + span l1) by lia.
    split; [unfold NULL; lia|]. split; [lia|].
    exists h. split; [done|]. split; [done|]. lia.
Qed.

(** X6: no block of a chain holds more than [MEMORY_POOL_SIZE -
    header_size] bytes, so a request that rounds to more leaves through the
    last return with a null pointer and nothing changed; and on an
    allocator not yet initialized every request that rounds to a size from
    1 to [MEMORY_POOL_SIZE - header_size] is given the block at the base
    of the pool. *)
Theorem X6_capacity :
  (∀ st bs s, chain st bs → MEMORY_POOL_SIZE - header_size < align4 s →
     My_Malloc st s = Some (ExitNotFound, NULL, st)) ∧
  (∀ st s, is_initialized st = 0 → 0 < align4 s ≤ MEMORY_POOL_SIZE - header_size →
     ∃ st', My_Malloc st s = Some (ExitFound, memory_pool + header_size, st')).
Proof.
  pose proof pool_bounds as (Hh & Hb & He). split.
  - intros st bs s Hc Hbig. eapply My_Malloc_exhaust; [done|lia|].
    apply Forall_forall. intros b (l1 & l2 & ->)%list_elem_of_split.
    destruct (chain_heap_split _ _ _ _ (proj2 (proj2 Hc))) as (? & ? & ? & ? & _).
    apply fits_false_iff. lia.
  - intros st s Hi Hs. rewrite <- My_Malloc_Memory_Init.
    destruct (My_Malloc_found (Memory_Init st) [] (MEMORY_POOL_SIZE - header_size) [] s)
      as (st' & Hm & _); [by apply Memory_Init_chain|lia|lia|constructor|].
    exists st'. rewrite Hm. do 3 f_equal. simpl. lia.
Qed.

Lemma span_mod4 bs :
  header_size mod 4 = 0 → Forall (λ b : Block, b.1 mod 4 = 0) bs → span bs mod 4 = 0.
Proof.
  intros Hh. induction 1 as [|b bs ? ? IH]; cbn [span]; [done|].
  Z.div_mod_to_equations. lia.
Qed.

(** X7: when the size of a header is a multiple of 4, the sizes of all the
    blocks of a chain that calls reach are multiples of 4, and every
    pointer in use is a multiple of 4 bytes away from the base of the
    pool. *)
Theorem X7_alignment (st : State) (ps : list Z) :
  header_size mod 4 = 0 → reachable st ps →
  (∀ p, p ∈ ps → (p - memory_pool) mod 4 = 0) ∧
  ∃ bs, chain st bs ∧ Forall (λ b : Block, b.1 mod 4 = 0) bs.
Proof.
  intros Hh Hr.
  destruct (reachable_blocks (Forall (λ b : Block, b.1 mod 4 = 0))) with (st := st) (ps := ps)
    as (bs & Hc & _ & Hp & Hall); [| | |done|].
  - constructor; [|done]. cbn [fst]. unfold MEMORY_POOL_SIZE.
    Z.div_mod_to_equations. lia.
  - intros l1 csz l2 r Hall Hr0 Hr4 Hle.
    apply (Forall_allocate_blocks (λ x, x mod 4 = 0)); [done|done|].
    apply Forall_app in Hall as [_ Hall]. apply Forall_cons in Hall as [Hc _].
    cbn [fst] in Hc. intros _. Z.div_mod_to_equations. lia.
  - intros l1 sz l2. apply (Forall_release_blocks (λ x, x mod 4 = 0)).
    intros x y Hx Hy. Z.div_mod_to_equations. lia.
  - split; [|by exists bs].
    intros p Hin. rewrite Hp in Hin.
    apply handles_elem in Hin as (l1 & sz & l2 & -> & ->).
    apply Forall_app in Hall as [H1%span_mod4 _]; [|done].
    Z.div_mod_to_equations. lia.
Qed.

Lemma absorb_next_not_free sz l2 :
  (∀ y : Block, head l2 = Some y → y.2 ≠ FREE) → absorb_next sz l2 = (sz, l2).
Proof.
  destruct l2 as [|[nsz [|]] l2']; cbn [absorb_next head]; [done| |done].
  intros Hy. by destruct (Hy _ eq_refl).
Qed.

Lemma absorb_prev_not_free l1 sz rest :
  (∀ x : Block, last l1 = Some x → x.2 ≠ FREE) →
  absorb_prev l1 sz rest = l1 ++ (sz, FREE) :: rest.
Proof.
  unfold absorb_prev. destruct (last l1) as [[psz [|]]|]; [|done..].
  intros Hx. by destruct (Hx _ eq_refl).
Qed.

(** The neighbours of a free block of a chain whose free blocks are kept
    apart are not free. *)
Lemma no_adjacent_free_around l1 sz l2 :
  no_adjacent_free (l1 ++ (sz, FREE) :: l2) →
  (∀ x : Block, last l1 = Some x → x.2 ≠ FREE) ∧
  (∀ y : Block, head l2 = Some y → y.2 ≠ FREE).
Proof.
  intros (_ & H2 & Hb)%no_adjacent_free_app. split.
  - intros x Hx Hfree. by apply (Hb x (sz, FREE) Hx eq_refl).
  - intros y Hy Hfree. destruct l2 as [|c l3]; [done|]. injection Hy as ->.
    apply no_adjacent_free_cons2 in H2 as [H2 _]. by apply H2.
Qed.

(** The release of the block that an allocation has just taken gives the
    chain back. *)
Lemma release_allocate_blocks l1 csz r l2 :
  no_adjacent_free (l1 ++ (csz, FREE) :: l2) →
  ∃ n m2, allocate_blocks l1 csz r l2 = l1 ++ (n, ALLOCATED) :: m2 ∧
          release_blocks l1 n m2 = l1 ++ (csz, FREE) :: l2.
Proof.
  intros [Hlast Hhead]%no_adjacent_free_around.
  unfold allocate_blocks, release_blocks. destruct (_ <=? _).
  - eexists _, _. split; [done|]. cbn [absorb_next fst snd].
    rewrite absorb_prev_not_free by done. do 3 f_equal. lia.
  - eexists _, _. split; [done|].
    rewrite absorb_next_not_free by done. cbn [fst snd].
    by rewrite absorb_prev_not_free.
Qed.

(** X8: on a chain whose free blocks are kept apart, [My_Free] of the
    pointer that [My_Malloc] has just returned gives back the chain as it
    was before the allocation, and [Memory_Stats] reports what it
    reported before. *)
Theorem X8_malloc_then_free (st : State) (bs : list Block) (s p : Z) (st' : State) :
  chain st bs → no_adjacent_free bs →
  My_Malloc st s = Some (ExitFound, p, st') →
  ∃ st'', My_Free st' p = Some ([], st'') ∧ chain st'' bs ∧
          Memory_Stats st'' = Memory_Stats st.
Proof.
  intros Hc Hn Hm.
  destruct (My_Malloc_cases st bs s Hc)
    as [[_ Hm']|[(_ & _ & Hm')|(Hnz & l1 & csz & l2 & st1 & -> & _ & Hle & Hm' & Hc1)]];
    rewrite Hm' in Hm; [done..|]. injection Hm as <- <-.
  destruct (release_allocate_blocks l1 csz (align4 s) l2 Hn) as (n & m2 & Ha & Hr).
  rewrite Ha in Hc1.
  destruct (My_Free_chain _ _ _ _ _ Hc1) as (st'' & Hf & Hc2). rewrite Hr in Hc2.
  exists st''. split; [done|]. split; [done|].
  by rewrite (Memory_Stats_chain _ _ Hc2), (Memory_Stats_chain _ _ Hc).
Qed.

(** X9: [My_Free] of the data address of a block that is already free, in
    a chain whose free blocks are kept apart, prints nothing and leaves
    the statics exactly as they were. *)
Theorem X9_My_Free_free_block (st : State) (l1 l2 : list Block) (sz : Z) :
  chain st (l1 ++ (sz, FREE) :: l2) →
  no_adjacent_free (l1 ++ (sz, FREE) :: l2) →
  My_Free st (memory_pool + span l1 + header_size) = Some ([], st).
Proof.
  pose proof pool_bounds as (Hh & Hb & He).
  intros Hc [Hlast Hhead]%no_adjacent_free_around.
  destruct (handle_in_pool _ _ _ _ (proj2 (proj2 Hc))) as (Hnull & Hblock & Hrange).
  destruct (chain_block _ _ _ _ Hc)
    as (h & Hh' & Hsz & Hst & Hnn & Hlo & Hhi & Hn0 & Hn1 & Hp0 & Hp1).
  cbn [fst snd] in *.
  unfold My_Free. rewrite Hnull, Hrange, Hblock.
  rewrite (store_Some _ _ _ _ Hh').
  assert (set_status FREE h = h) as -> by (destruct h; cbn in *; by subst).
  rewrite insert_id by done. cbn [mbind option_bind].
  assert (merge_next (memory_pool + span l1) (headers st) = Some (headers st)) as ->.
  { unfold merge_next. rewrite Hh'. cbn [mbind option_bind].
    destruct l2 as [|c l3].
    - destruct (Hn0 eq_refl) as [-> _]. done.
    - destruct (Hn1 _ _ eq_refl) as (Hnx & h' & Hh2 & _ & _ & Hst2).
      rewrite (proj2 (Z.eqb_neq _ NULL)) by (unfold NULL; lia).
      rewrite Hh2. cbn [mbind option_bind].
      rewrite bool_decide_eq_false_2; [done|]. rewrite Hst2. by apply Hhead. }
  cbn [mbind option_bind].
  assert (merge_prev (memory_pool + span l1) (headers st) = Some (headers st)) as ->.
  { unfold merge_prev. rewrite Hh'. cbn [mbind option_bind].
    destruct l1 as [|c l0 _] using rev_ind.
    - destruct (Hp0 eq_refl) as [-> _]. done.
    - destruct (Hp1 _ _ eq_refl) as (Hpv & _ & h' & Hh2 & _ & _ & Hst2).
      pose proof (chain_from_sizes _ _ _ _ _ (proj1 (proj2 (proj2 Hc)))) as Hpos.
      apply Forall_app in Hpos as [Hpos _]. apply Forall_app in Hpos as [Hpos%span_nonneg _].
      rewrite (proj2 (Z.eqb_neq _ NULL)) by (unfold NULL; lia).
      rewrite Hh2. cbn [mbind option_bind].
      rewrite bool_decide_eq_false_2; [done|]. rewrite Hst2. apply Hlast.
      by rewrite last_snoc. }
  cbn [mbind option_bind]. by destruct st.
Qed.

(** A release leaves a free block that holds the block released, no
    further from the base of the pool. *)
Lemma release_blocks_free_block l1 sz s0 l2 :
  Forall (λ b : Block, 0 ≤ b.1) (l1 ++ (sz, s0) :: l2) →
  ∃ m1 fsz m2, release_blocks l1 sz l2 = m1 ++ (fsz, FREE) :: m2 ∧
               sz ≤ fsz ∧ span m1 ≤ span l1.
Proof.
  pose proof header_positive.
  intros Hpos. apply Forall_app in Hpos as [H1 Hpos].
  apply Forall_cons in Hpos as [Hsz H2]. cbn [fst] in Hsz.
  assert (sz ≤ (absorb_next sz l2).1) as Hn.
  { destruct l2 as [|[nsz [|]] l2']; cbn [absorb_next fst]; [lia| |lia].
    apply Forall_cons in H2 as [? _]. cbn [fst] in *. lia. }
  unfold release_blocks, absorb_prev.
  destruct l1 as [|[psz ps] l0 _] using rev_ind.
  - cbn [last]. by eexists [], _, _.
  - rewrite last_snoc. apply Forall_app in H1 as [_ Hp].
    apply Forall_cons in Hp as [Hp _]. cbn [fst] in Hp. destruct ps.
    + rewrite removelast_last. eexists l0, _, _. split; [done|].
      rewrite span_app. cbn [span fst]. lia.
    + by eexists _, _, _.
Qed.

(** X10: after [My_Free] of a region in use of [n] bytes, a request that
    rounds to a size from 1 to [n] is given a block, at the address of
    the region released or before it. *)
Theorem X10_reuse_after_release (st : State) (bs : list Block) (p n s : Z)
    (out : list string) (st' : State) :
  chain st bs → (p, n) ∈ allocated memory_pool bs →
  My_Free st p = Some (out, st') → 0 < align4 s ≤ n →
  ∃ q st'', My_Malloc st' s = Some (ExitFound, q, st'') ∧ q ≤ p.
Proof.
  intros Hc (l1 & l2 & -> & ->)%allocated_elem Hf Hs.
  destruct (My_Free_chain _ _ _ _ _ Hc) as (st1 & Hf' & Hc1).
  rewrite Hf' in Hf. injection Hf as <- <-.
  pose proof (chain_from_sizes _ _ _ _ _ (proj1 (proj2 (proj2 Hc)))) as Hpos.
  destruct (release_blocks_free_block _ _ _ _ Hpos) as (m1 & fsz & m2 & Hrel & Hfsz & Hsp).
  rewrite Hrel in Hc1.
  pose proof (chain_from_sizes _ _ _ _ _ (proj1 (proj2 (proj2 Hc1)))) as Hpos1.
  assert (fits (align4 s) (fsz, FREE) = true) as Hfit
    by (apply fits_true_iff; split; [done|cbn [fst]; lia]).
  destruct (My_Malloc_cases st1 _ s Hc1)
    as [[Hz _]|[(_ & Hno & _)|(_ & l1' & csz & l2' & st2 & Heq & Hno & _ & Hm & _)]].
  - lia.
  - apply Forall_app in Hno as [_ Hno]. apply Forall_cons in Hno as [Hno _]. congruence.
  - exists (memory_pool + span l1' + header_size), st2. split; [done|].
    destruct (Z_lt_le_dec (span m1) (span l1')) as [Hlt|Hle]; [|lia].
    destruct (span_prefix _ _ _ _ Hpos1 Heq Hlt) as ([|c k] & Hk & -> & Hm2); [done|].
    injection Hm2 as <- _.
    apply Forall_app in Hno as [_ Hno]. apply Forall_cons in Hno as [Hno _]. congruence.
Qed.

(** X11: on a chain, [Memory_Stats] ends and lists the blocks of the chain
    in the order of their addresses: line [i] gives the data address, the
    size and the status of block [i], as its header holds them. *)
Theorem X11_Memory_Stats_rows (st : State) (bs : list Block) :
  chain st bs →
  ∃ rep, Memory_Stats st = Some rep ∧ length (rows rep) = length bs ∧
    ∀ l1 b l2, bs = l1 ++ b :: l2 →
      rows rep !! length l1 = Some (memory_pool + span l1 + header_size, b.1, b.2) ∧
      ∃ h, headers st !! (memory_pool + span l1) = Some h ∧ size h = b.1 ∧
           status h = b.2.
Proof.
  intros Hc. rewrite (Memory_Stats_chain _ _ Hc). eexists. split; [done|].
  cbn [rows].
  assert (∀ a (l : list Block), length (listing a l) = length l) as Hlen.
  { intros a l. revert a. induction l as [|c l IH]; intros a; simpl; [done|].
    by rewrite IH. }
  split; [apply Hlen|]. intros l1 b l2 ->. split.
  - assert (∀ a (k1 k2 : list Block),
              listing a (k1 ++ k2) = listing a k1 ++ listing (a + span k1) k2) as Happ.
    { intros a k1. revert a. induction k1 as [|c k1 IH]; intros a k2; cbn [app listing span].
      - by rewrite Z.add_0_r.
      - rewrite IH. do 3 f_equal. lia. }
    rewrite Happ, lookup_app_r by (rewrite Hlen; lia).
    rewrite Hlen, Nat.sub_diag. done.
  - destruct (chain_block _ _ _ _ Hc) as (h & Hh & Hsz & Hst & _). by exists h.
Qed.

Lemma row_bytes_listing s a bs :
  row_bytes s (listing a bs)
  = match s with
    | FREE => free_bytes bs
    | ALLOCATED => span bs - header_size * Z.of_nat (length bs) - free_bytes bs
    end.
Proof.
  revert a. induction bs as [|[sz [|]] bs IH]; intros a;
    cbn [listing row_bytes free_bytes span length fst snd]; [destruct s; lia|..];
    rewrite IH, Nat2Z.inj_succ, Z.mul_succ_r; destruct s;
    repeat case_bool_decide; try done; lia.
Qed.

(** X12: the summary of [Memory_Stats] agrees with its listing: the number
    of blocks and of free blocks, and the free bytes; and the data bytes
    of the free and of the allocated blocks, with one header for each
    block, make up the [MEMORY_POOL_SIZE] bytes of the pool. *)
Theorem X12_Memory_Stats_summary (st : State) (bs : list Block) (rep : StatsReport) :
  chain st bs → Memory_Stats st = Some rep →
  block_count rep = Z.of_nat (length (rows rep)) ∧
  free_blocks rep = Z.of_nat (count_status FREE (rows rep)) ∧
  total_free rep = row_bytes FREE (rows rep) ∧
  row_bytes FREE (rows rep) + row_bytes ALLOCATED (rows rep)
    + header_size * block_count rep = MEMORY_POOL_SIZE.
Proof.
  intros Hc. rewrite (Memory_Stats_chain _ _ Hc). intros [= <-].
  cbn [rows block_count free_blocks total_free].
  rewrite !row_bytes_listing.
  assert (∀ a (l : list Block), length (listing a l) = length l) as Hlen.
  { intros a l. revert a. induction l as [|c l IH]; intros a; simpl; [done|].
    by rewrite IH. }
  assert (∀ a (l : list Block),
            Z.of_nat (count_status FREE (listing a l)) = free_count l) as Hcount.
  { intros a l. revert a. induction l as [|[sz s] l IH]; intros a; [done|].
    rewrite free_count_cons, <- (IH (a + header_size + sz)).
    unfold count_status. cbn [listing]. rewrite filter_cons. cbn [snd].
    destruct s; [rewrite bool_decide_eq_true_2 by done
                |rewrite bool_decide_eq_false_2 by done];
      destruct (decide _); try done; cbn [length fst]; lia. }
  rewrite Hlen, Hcount. do 3 (split; [done|]).
  destruct Hc as (_ & _ & _ & Hsp). lia.
Qed.

Lemma Memory_Stats_report st bs : chain st bs → Memory_Stats st = Some (report bs).
Proof. apply Memory_Stats_chain. Qed.

(** The calls of [main], one after the other, and the chain after each. *)
Lemma main_trace :
  header_size ≤ 1928 →
  let p1 := memory_pool + header_size in
  let p2 := memory_pool + 2 * header_size + 100 in
  let p3 := memory_pool + 3 * header_size + 300 in
  let rest := MEMORY_POOL_SIZE - 4 * header_size - 600 in
  ∃ st1 st2 st3 st4 st5 st6,
    My_Malloc (Memory_Init program_start) 100 = Some (ExitFound, p1, st1) ∧
    chain st1 [(100, ALLOCATED); (MEMORY_POOL_SIZE - 2 * header_size - 100, FREE)] ∧
    My_Malloc st1 200 = Some (ExitFound, p2, st2) ∧
    chain st2 [(100, ALLOCATED); (200, ALLOCATED);
               (MEMORY_POOL_SIZE - 3 * header_size - 300, FREE)] ∧
    My_Malloc st2 300 = Some (ExitFound, p3, st3) ∧
    chain st3 [(100, ALLOCATED); (200, ALLOCATED); (300, ALLOCATED); (rest, FREE)] ∧
    My_Free st3 p2 = Some ([], st4) ∧
    chain st4 [(100, ALLOCATED); (200, FREE); (300, ALLOCATED); (rest, FREE)] ∧
    My_Free st4 p1 = Some ([], st5) ∧
    chain st5 [(300 + header_size, FREE); (300, ALLOCATED); (rest, FREE)] ∧
    My_Free st5 p3 = Some ([], st6) ∧
    chain st6 [(MEMORY_POOL_SIZE - header_size, FREE)].
Proof.
  intros Hhdr p1 p2 p3 rest.
  pose proof pool_bounds as (Hh & Hb & He). pose proof pow_w_large as Hw.
  unfold MEMORY_POOL_SIZE in Hh, He.
  assert (align4 100 = 100 ∧ align4 200 = 200 ∧ align4 300 = 300) as (A1 & A2 & A3)
    by (repeat split; apply align4_multiple; (done || lia)).
  pose proof (Memory_Init_chain program_start eq_refl) as Hc0.
  destruct (My_Malloc_found _ [] _ [] 100 Hc0) as (st1 & Hm1 & Hc1);
    [rewrite A1; unfold MEMORY_POOL_SIZE; lia..|by constructor|].
  rewrite A1 in Hc1. unfold allocate_blocks in Hc1.
  rewrite (proj2 (Z.leb_le _ _)) in Hc1 by (unfold MEMORY_POOL_SIZE; lia).
  destruct (My_Malloc_found _ [(100, ALLOCATED)] _ [] 200 Hc1) as (st2 & Hm2 & Hc2);
    [rewrite A2; unfold MEMORY_POOL_SIZE; lia..|by repeat constructor|].
  rewrite A2 in Hc2. unfold allocate_blocks in Hc2.
  rewrite (proj2 (Z.leb_le _ _)) in Hc2 by (unfold MEMORY_POOL_SIZE; lia).
  destruct (My_Malloc_found _ [(100, ALLOCATED); (200, ALLOCATED)] _ [] 300 Hc2)
    as (st3 & Hm3 & Hc3);
    [rewrite A3; unfold MEMORY_POOL_SIZE; lia..|by repeat constructor|].
  rewrite A3 in Hc3. unfold allocate_blocks in Hc3.
  rewrite (proj2 (Z.leb_le _ _)) in Hc3 by (unfold MEMORY_POOL_SIZE; lia).
  cbn [app] in Hc1, Hc2, Hc3.
  replace (MEMORY_POOL_SIZE - header_size - 100 - header_size)
    with (MEMORY_POOL_SIZE - 2 * header_size - 100) in Hc1 by lia.
  replace (MEMORY_POOL_SIZE - header_size - 100 - header_size - 200 - header_size)
    with (MEMORY_POOL_SIZE - 3 * header_size - 300) in Hc2 by lia.
  replace (MEMORY_POOL_SIZE - header_size - 100 - header_size - 200 - header_size
           - 300 - header_size) with rest in Hc3 by (subst rest; lia).
  destruct (My_Free_chain st3 [(100, ALLOCATED)] 200 ALLOCATED
              [(300, ALLOCATED); (rest, FREE)] Hc3) as (st4 & Hf4 & Hc4).
  change (release_blocks [(100, ALLOCATED)] 200 [(300, ALLOCATED); (rest, FREE)])
    with [(100, ALLOCATED); (200, FREE); (300, ALLOCATED); (rest, FREE)] in Hc4.
  destruct (My_Free_chain st4 [] 100 ALLOCATED
              [(200, FREE); (300, ALLOCATED); (rest, FREE)] Hc4) as (st5 & Hf5 & Hc5).
  change (release_blocks [] 100 [(200, FREE); (300, ALLOCATED); (rest, FREE)])
    with [(100 + (header_size + 200), FREE); (300, ALLOCATED); (rest, FREE)] in Hc5.
  replace (100 + (header_size + 200)) with (300 + header_size) in Hc5 by lia.
  destruct (My_Free_chain st5 [(300 + header_size, FREE)] 300 ALLOCATED
              [(rest, FREE)] Hc5) as (st6 & Hf6 & Hc6).
  change (release_blocks [(300 + header_size, FREE)] 300 [(rest, FREE)])
    with [(300 + header_size + (header_size + (300 + (header_size + rest))), FREE)]
    in Hc6.
  replace (300 + header_size + (header_size + (300 + (header_size + rest))))
    with (MEMORY_POOL_SIZE - header_size) in Hc6 by (subst rest; lia).
  cbn [span fst] in Hm1, Hm2, Hm3, Hf4, Hf5, Hf6.
  replace (memory_pool + 0 + header_size) with p1 in Hm1, Hf5 by (subst p1; lia).
  replace (memory_pool + (header_size + 100 + 0) + header_size) with p2 in Hm2, Hf4
    by (subst p2; lia).
  replace (memory_pool + (header_size + 100 + (header_size + 200 + 0)) + header_size)
    with p3 in Hm3 by (subst p3; lia).
  replace (memory_pool + (header_size + (300 + header_size) + 0) + header_size)
    with p3 in Hf6 by (subst p3; lia).
  by exists st1, st2, st3, st4, st5, st6.
Qed.

(** X13: on a platform whose header takes at most 1928 bytes, [main]
    returns 0 after it has written its seven headings, each followed by
    what [Memory_Stats] prints for the chain at that point: the whole pool
    free; then one, two and three allocated blocks before the free
    remainder; then the second block free between two allocated ones; then
    the first two merged into one free block of 300 bytes and a header;
    then again the whole pool free.  [My_Free] prints nothing. *)
Theorem X13_main :
  header_size ≤ 1928 →
  let rest := MEMORY_POOL_SIZE - 4 * header_size - 600 in
  main =
    Some ([Print (String.append "Initial memory state:" newline);
           PrintStats (report [(MEMORY_POOL_SIZE - header_size, FREE)]);
           Print (String.append newline
                    (String.append "After allocating 100 bytes:" newline));
           PrintStats (report [(100, ALLOCATED);
                               (MEMORY_POOL_SIZE - 2 * header_size - 100, FREE)]);
           Print (String.append newline
                    (String.append "After allocating 200 bytes:" newline));
           PrintStats (report [(100, ALLOCATED); (200, ALLOCATED);
                               (MEMORY_POOL_SIZE - 3 * header_size - 300, FREE)]);
           Print (String.append newline
                    (String.append "After allocating 300 bytes:" newline));
           PrintStats (report [(100, ALLOCATED); (200, ALLOCATED); (300, ALLOCATED);
                               (rest, FREE)]);
           Print (String.append newline
                    (String.append "After freeing the second allocation:" newline));
           PrintStats (report [(100, ALLOCATED); (200, FREE); (300, ALLOCATED);
                               (rest, FREE)]);
           Print (String.append newline
                    (String.append "After freeing the first allocation:" newline));
           PrintStats (report [(300 + header_size, FREE); (300, ALLOCATED);
                               (rest, FREE)]);
           Print (String.append newline
                    (String.append "After freeing all allocations:" newline));
           PrintStats (report [(MEMORY_POOL_SIZE - header_size, FREE)])],
          0).
Proof.
  intros Hhdr rest.
  destruct (main_trace Hhdr)
    as (st1 & st2 & st3 & st4 & st5 & st6 & Hm1 & Hc1 & Hm2 & Hc2 & Hm3 & Hc3
        & Hf4 & Hc4 & Hf5 & Hc5 & Hf6 & Hc6).
  unfold main.
  rewrite (Memory_Stats_report _ _ (Memory_Init_chain program_start eq_refl)).
  cbn [mbind option_bind]. rewrite Hm1. cbn [mbind option_bind].
  rewrite (Memory_Stats_report _ _ Hc1). cbn [mbind option_bind].
  rewrite Hm2. cbn [mbind option_bind].
  rewrite (Memory_Stats_report _ _ Hc2). cbn [mbind option_bind].
  rewrite Hm3. cbn [mbind option_bind].
  rewrite (Memory_Stats_report _ _ Hc3). cbn [mbind option_bind].
  rewrite Hf4. cbn [mbind option_bind].
  rewrite (Memory_Stats_report _ _ Hc4). cbn [mbind option_bind].
  rewrite Hf5. cbn [mbind option_bind].
  rewrite (Memory_Stats_report _ _ Hc5). cbn [mbind option_bind].
  rewrite Hf6. cbn [mbind option_bind].
  rewrite (Memory_Stats_report _ _ Hc6). cbn [mbind option_bind].
  reflexivity.
Qed.

(** [merge_prev] only writes to the header before the block and to the
    header after it. *)
Lemma merge_prev_frame block hs hs' b x :
  hs !! block = Some b → block ≠ prev b →
  merge_prev block hs = Some hs' → x ≠ prev b → x ≠ next b →
  hs' !! x = hs !! x.
Proof.
  intros Hb Hne Hm Hx1 Hx2. unfold merge_prev in Hm. rewrite Hb in Hm.
  cbn [mbind option_bind] in Hm.
  destruct (prev b =? NULL); [by injection Hm as <-|].
  destruct (hs !! prev b) as [pb|] eqn:Hpb; [|done]. cbn [mbind option_bind] in Hm.
  destruct (bool_decide (status pb = FREE)); [|by injection Hm as <-].
  rewrite (store_Some _ _ _ _ Hpb) in Hm. cbn [mbind option_bind] in Hm.
  rewrite lookup_insert_ne, Hb in Hm by done. cbn [mbind option_bind] in Hm.
  erewrite store_Some in Hm by apply lookup_insert_eq. cbn [mbind option_bind] in Hm.
  rewrite !lookup_insert_ne, Hb in Hm by done. cbn [mbind option_bind] in Hm.
  destruct (next b =? NULL).
  - injection Hm as <-. by rewrite !lookup_insert_ne.
  - unfold store in Hm. destruct (_ !! next b); [|done]. injection Hm as <-.
    by rewrite !lookup_insert_ne.
Qed.

(** X14: [My_Free] does not tell a pointer that was already released.
    When the release of a block has merged it into the free block before
    it, a second [My_Free] of the same pointer reads the header left
    behind in the pool and adds the block to its predecessor once more:
    the size of the predecessor then runs a header and the size of the
    block past the place where the next block starts, or where the pool
    ends. *)
Theorem X14_double_release (st : State) (l0 l2 : list Block) (psz sz : Z) :
  chain st (l0 ++ (psz, FREE) :: (sz, ALLOCATED) :: l2) →
  no_adjacent_free (l0 ++ (psz, FREE) :: (sz, ALLOCATED) :: l2) →
  let ap := memory_pool + span l0 in
  let p := ap + header_size + psz + header_size in
  let sz1 := (absorb_next sz l2).1 in
  let rest := (absorb_next sz l2).2 in
  let e := ap + header_size + (psz + (header_size + sz1)) in
  ∃ st1 st2 h,
    My_Free st p = Some ([], st1) ∧
    chain st1 (l0 ++ (psz + (header_size + sz1), FREE) :: rest) ∧
    e = memory_pool + MEMORY_POOL_SIZE - span rest ∧
    My_Free st1 p = Some ([], st2) ∧
    headers st2 !! ap = Some h ∧ status h = FREE ∧
    next h = match rest with [] => NULL | _ :: _ => e end ∧
    ap + header_size + size h = e + (header_size + sz1) ∧ 0 ≤ sz1.
Proof.
  pose proof pool_bounds as (Hh & Hb & He). pose proof pow_w_large as Hw.
  intros Hc Hn ap p sz1 rest e.
  assert (l0 ++ (psz, FREE) :: (sz, ALLOCATED) :: l2
          = (l0 ++ [(psz, FREE)]) ++ (sz, ALLOCATED) :: l2) as Hassoc
    by (by rewrite <- app_assoc).
  rewrite Hassoc in Hc, Hn.
  assert (span (l0 ++ [(psz, FREE)]) = span l0 + header_size + psz) as Hspan
    by (rewrite span_app; simpl; lia).
  destruct Hc as (Hi & Hfb & Hheap).
  destruct (handle_in_pool _ _ _ _ Hheap) as (Hnull & Hblock & Hrange).
  rewrite Hspan in Hnull, Hblock, Hrange.
  replace (memory_pool + (span l0 + header_size + psz) + header_size)
    with p in Hnull, Hblock, Hrange by (subst p ap; lia).
  set (a := memory_pool + (span l0 + header_size + psz)) in *.
  (* the first release, step by step *)
  destruct (mark_block _ _ _ _ FREE _ Hheap) as (hs1 & Hs1 & H1).
  destruct (merge_next_chain _ _ _ _ _ H1) as (hs2 & Hm2 & H2).
  destruct (merge_prev_chain _ _ _ _ H2) as (hs3 & Hm3 & H3).
  rewrite Hspan in Hs1, Hm2, Hm3. fold a in Hs1, Hm2, Hm3. fold sz1 rest in H2, H3, Hm3.
  unfold absorb_prev in H3. rewrite last_snoc, removelast_last in H3.
  destruct (chain_heap_split _ _ _ _ H2) as (_ & Hsz1 & Hrest & Hsum2 & _ & Ha2 & _).
  rewrite Hspan, last_addr_snoc in Ha2. fold a ap in Ha2. cbn [fst snd] in Ha2, Hsz1.
  destruct (chain_heap_split _ _ _ _ H3) as (Hs0 & Hpsz & _ & Hsum3 & _ & Hp3 & Hpost3).
  fold ap in Hp3, Hpost3. cbn [fst snd] in Hp3, Hpost3, Hpsz. fold e in Hp3, Hpost3.
  assert (a = ap + header_size + psz) as Ha by (subst a ap; lia).
  assert (0 ≤ psz) as Hpsz0.
  { pose proof (chain_from_sizes _ _ _ _ _ (proj1 Hheap)) as Hpos.
    apply Forall_app in Hpos as [Hpos _]. apply Forall_app in Hpos as [_ Hpos].
    by apply Forall_cons in Hpos as [? _]. }
  assert (hs3 !! a = hs2 !! a) as Ha3.
  { eapply merge_prev_frame; [exact Ha2|..|exact Hm3| |]; cbn [prev next].
    - lia.
    - lia.
    - destruct rest; [unfold NULL|]; lia. }
  rewrite Ha2 in Ha3.
  assert (My_Free st p = Some ([], mkState hs3 (first_block st) (is_initialized st)))
    as Hfree1.
  { unfold My_Free. rewrite Hnull, Hrange, Hblock, Hs1. cbn [mbind option_bind].
    rewrite Hm2. cbn [mbind option_bind]. by rewrite Hm3. }
  assert (no_adjacent_free (l0 ++ (psz + (header_size + sz1), FREE) :: rest)) as Hn3.
  { pose proof (release_blocks_no_adjacent_free _ _ _ _ Hn) as Hn'.
    unfold release_blocks, absorb_prev in Hn'.
    by rewrite last_snoc, removelast_last in Hn'. }
  apply no_adjacent_free_around in Hn3 as [_ Hhead].
  assert (MEMORY_POOL_SIZE = 10240) as Hpool by reflexivity. cbn [span fst] in Hsum3.
  (* the second release *)
  cut (∃ st2 h,
         My_Free (mkState hs3 (first_block st) (is_initialized st)) p = Some ([], st2) ∧
         headers st2 !! ap = Some h ∧ status h = FREE ∧
         next h = match rest with [] => NULL | _ :: _ => e end ∧
         ap + header_size + size h = e + (header_size + sz1)).
  { intros (st2 & h & Hfree2 & Hh2 & Hst2 & Hnx2 & Hsz2).
    exists (mkState hs3 (first_block st) (is_initialized st)), st2, h.
    split; [exact Hfree1|]. split; [by split|]. split; [subst e ap; lia|].
    by repeat split. }
  unfold My_Free. rewrite Hnull, Hrange, Hblock. cbn [headers first_block is_initialized].
  rewrite (store_Some _ _ _ _ Ha3). unfold set_status at 1. cbn [size status next prev].
  rewrite insert_id by done. cbn [mbind option_bind].
  assert (merge_next a hs3 = Some hs3) as ->.
  { unfold merge_next. rewrite Ha3. cbn [mbind option_bind next].
    destruct rest as [|c r3]; [done|].
    rewrite (proj2 (Z.eqb_neq _ NULL)) by (unfold NULL; lia).
    destruct Hpost3 as (_ & Hc3 & _).
    replace (a + header_size + sz1) with e by (subst e; lia).
    rewrite Hc3. cbn [mbind option_bind status].
    rewrite bool_decide_eq_false_2; [done|]. by apply Hhead. }
  cbn [mbind option_bind]. unfold merge_prev. rewrite Ha3.
  cbn [mbind option_bind prev next size].
  rewrite (proj2 (Z.eqb_neq _ NULL)) by (unfold NULL; lia).
  rewrite Hp3. cbn [mbind option_bind status].
  rewrite bool_decide_eq_true_2 by done.
  store_step. heap_lookup. rewrite Ha3. cbn [mbind option_bind next].
  store_step. heap_lookup. rewrite Ha3. cbn [mbind option_bind next].
  unfold set_size, set_next. cbn [size status next prev].
  rewrite insert_insert_eq. rewrite wrap_small by lia.
  assert (match rest with [] => NULL | _ :: _ => a + header_size + sz1 end
          = match rest with [] => NULL | _ :: _ => e end) as Hnext
    by (destruct rest; [done|subst e; lia]).
  destruct rest as [|c r3].
  - cbn [Z.eqb NULL]. eexists _, _. split; [reflexivity|]. cbn [headers]. heap_lookup.
    split; [reflexivity|]. cbn [size status next]. repeat split; lia.
  - rewrite (proj2 (Z.eqb_neq _ NULL)) by (unfold NULL; lia).
    destruct Hpost3 as (_ & Hc3 & _).
    replace (a + header_size + sz1) with e by (subst e; lia).
    store_step. eexists _, _. split; [reflexivity|]. cbn [headers]. heap_lookup.
    split; [reflexivity|]. cbn [size status next]. repeat split; lia.
Qed.

(** X15: from any statics that calls of the three functions reach,
    [My_Free] of all the pointers in use, in any order, prints nothing and
    leaves one free block that takes the whole pool. *)
Theorem X15_release_all (st : State) (ps qs : list Z) :
  reachable st ps → qs ≡ₚ ps →
  ∃ st', free_all st qs = Some st' ∧
         chain st' [(MEMORY_POOL_SIZE - header_size, FREE)] ∧
         Memory_Stats st' = Some (report [(MEMORY_POOL_SIZE - header_size, FREE)]).
Proof.
  intros (bs & Hc & Hn & Hp)%reachable_chain Hq.
  destruct (free_all_chain qs _ _ Hc Hn) as (st' & bs' & Hf & Hc' & Hn' & Hh');
    [by rewrite Hq|].
  apply handles_nil in Hh'.
  pose proof (all_free_one_block _ _ (proj2 (proj2 Hc')) Hn' Hh') as ->.
  exists st'. split; [done|]. split; [done|]. by apply Memory_Stats_report.
Qed.

End Properties.

(** ** The properties on LP64 *)

Lemma lp64_ok : PlatformOk lp64.
Proof. split; vm_compute; done. Qed.

Lemma lp64_ready_chain : chain (P := lp64) lp64_ready [(10208, FREE)].
Proof. exact (Memory_Init_chain lp64_ok program_start eq_refl). Qed.

Lemma lp64_one_chain : chain (P := lp64) lp64_one [(100, ALLOCATED); (10076, FREE)].
Proof. repeat split; vm_compute; done. Qed.

Lemma lp64_three_allocated :
  malloc_all (P := lp64) lp64_ready [100; 200; 300] = Some ([4128; 4260; 4492], lp64_three).
Proof. vm_compute. reflexivity. Qed.

(** The first allocation of [main] on LP64 takes the block at the base of
    the pool. *)
Lemma C1_witness :
  PlatformOk lp64 ∧ chain (P := lp64) lp64_ready [(10208, FREE)] ∧
  ∃ h st', headers lp64_ready !! 4096 = Some h ∧ size h = 10208 ∧ status h = FREE ∧
           My_Malloc (P := lp64) lp64_ready 100 = Some (ExitFound, 4128, st').
Proof.
  split; [exact lp64_ok|]. split; [exact lp64_ready_chain|].
  destruct (C1_My_Malloc_first_fit (P := lp64) lp64_ok lp64_ready [(10208, FREE)] 100
              lp64_ready_chain) as (_ & _ & Hfound & _).
  apply (Hfound ltac:(by vm_compute) [] (10208, FREE) []).
  - reflexivity.
  - constructor.
  - reflexivity.
  - by vm_compute.
Defined.

(** The first allocation of [main] on LP64 splits the block of 10208
    bytes. *)
Lemma C2_witness :
  PlatformOk lp64 ∧ chain (P := lp64) lp64_ready ([] ++ (10208, FREE) :: []) ∧
  ∃ st', My_Malloc (P := lp64) lp64_ready 100 = Some (ExitFound, 4128, st') ∧
         chain (P := lp64) st' [(100, ALLOCATED); (10076, FREE)].
Proof.
  split; [exact lp64_ok|]. split; [exact lp64_ready_chain|].
  destruct (C2_My_Malloc_split (P := lp64) lp64_ok lp64_ready [] [] 10208 100
              lp64_ready_chain) as (st' & Hm & Hsplit & _).
  - by vm_compute.
  - by vm_compute.
  - constructor.
  - exists st'. split; [exact Hm|]. apply Hsplit. by vm_compute.
Defined.

(** The release of the block of 100 bytes on LP64 merges it with the free
    remainder. *)
Lemma C3_witness :
  PlatformOk lp64 ∧
  chain (P := lp64) lp64_one ([] ++ (100, ALLOCATED) :: [(10076, FREE)]) ∧
  ∃ st', My_Free (P := lp64) lp64_one 4128 = Some ([], st') ∧
         chain (P := lp64) st' [(10208, FREE)].
Proof.
  split; [exact lp64_ok|]. split; [exact lp64_one_chain|].
  destruct (C3_My_Free_coalesce (P := lp64) lp64_ok lp64_one [] [(10076, FREE)] 100
              ALLOCATED lp64_one_chain) as (st' & Hf & Hc & _).
  exists st'. split; [exact Hf|exact Hc].
Defined.

(** The chain on LP64 after [Memory_Init], an allocation and a release. *)
Lemma C4_witness :
  PlatformOk lp64 ∧ is_initialized program_start = 0 ∧
  chain (P := lp64) lp64_ready [(10208, FREE)] ∧
  chain (P := lp64) lp64_one ([] ++ (100, ALLOCATED) :: [(10076, FREE)]) ∧
  (∃ e p st' bs', My_Malloc (P := lp64) lp64_ready 100 = Some (e, p, st') ∧
                  chain (P := lp64) st' bs') ∧
  (∃ st' bs', My_Free (P := lp64) lp64_one 4128 = Some ([], st') ∧
              chain (P := lp64) st' bs') ∧
  first_block lp64_one = 4096.
Proof.
  destruct (C4_chain_invariant (P := lp64) lp64_ok) as (Hinit & Hmalloc & Hfree & Hread).
  split; [exact lp64_ok|]. split; [reflexivity|].
  split; [exact (Hinit program_start eq_refl)|]. split; [exact lp64_one_chain|].
  split; [exact (Hmalloc lp64_ready _ 100 lp64_ready_chain)|].
  split; [exact (Hfree lp64_one [] 100 ALLOCATED [(10076, FREE)] lp64_one_chain)|].
  exact (proj1 (Hread lp64_one _ lp64_one_chain)).
Defined.

(** Free blocks are kept apart on LP64 by the release of the block of 100
    bytes. *)
Lemma C5_witness :
  PlatformOk lp64 ∧
  chain (P := lp64) lp64_one ([] ++ (100, ALLOCATED) :: [(10076, FREE)]) ∧
  no_adjacent_free ([] ++ (100, ALLOCATED) :: [(10076, FREE)]) ∧
  ∃ st' bs', My_Free (P := lp64) lp64_one 4128 = Some ([], st') ∧
             chain (P := lp64) st' bs' ∧ no_adjacent_free bs'.
Proof.
  assert (no_adjacent_free ([] ++ (100, ALLOCATED) :: [(10076, FREE)])) as Hn.
  { simpl. repeat split. by intros [? _]. }
  split; [exact lp64_ok|]. split; [exact lp64_one_chain|]. split; [exact Hn|].
  exact (proj1 (C5_My_Free_no_adjacent_free (P := lp64) lp64_ok)
           lp64_one [] 100 ALLOCATED [(10076, FREE)] lp64_one_chain Hn).
Defined.

(** The three allocations of [main] on LP64, released second, first,
    third. *)
Lemma C6_witness :
  PlatformOk lp64 ∧ is_initialized program_start = 0 ∧
  malloc_all (P := lp64) (Memory_Init (P := lp64) program_start) [100; 200; 300]
    = Some ([4128; 4260; 4492], lp64_three) ∧
  [4260; 4128; 4492] ≡ₚ [4128; 4260; 4492] ∧
  ∃ st2, free_all (P := lp64) lp64_three [4260; 4128; 4492] = Some st2 ∧
         chain (P := lp64) st2 [(10208, FREE)].
Proof.
  split; [exact lp64_ok|]. split; [reflexivity|].
  split; [exact lp64_three_allocated|].
  assert ([4260; 4128; 4492] ≡ₚ [4128; 4260; 4492]) as Hperm by apply perm_swap.
  split; [exact Hperm|].
  destruct (C6_round_trip (P := lp64) lp64_ok program_start [100; 200; 300]
              [4128; 4260; 4492] [4260; 4128; 4492] lp64_three eq_refl
              lp64_three_allocated Hperm) as (st2 & Hf & Hc & _).
  exists st2. split; [exact Hf|exact Hc].
Defined.

(** [Memory_Init] twice at the start of the program on LP64. *)
Lemma C7_witness :
  PlatformOk lp64 ∧
  Memory_Init (P := lp64) (Memory_Init (P := lp64) program_start)
  = Memory_Init (P := lp64) program_start.
Proof.
  split; [exact lp64_ok|].
  exact (proj1 (C7_Memory_Init_idempotent (P := lp64) lp64_ok program_start)).
Defined.

(** On LP64 the pointer 8 lies, a header back, past the end of the pool. *)
Lemma C8_witness :
  PlatformOk lp64 ∧ 8 ≠ NULL ∧
  (wrap (P := lp64) (8 - 32) < 4096 ∨ 4096 + MEMORY_POOL_SIZE ≤ wrap (P := lp64) (8 - 32)) ∧
  My_Free (P := lp64) lp64_one 8 = Some ([outside_pool_message], lp64_one).
Proof.
  assert (8 ≠ NULL) as Hnull by (by vm_compute).
  assert (wrap (P := lp64) (8 - 32) < 4096
          ∨ 4096 + MEMORY_POOL_SIZE ≤ wrap (P := lp64) (8 - 32)) as Hout
    by (right; by vm_compute).
  split; [exact lp64_ok|]. split; [exact Hnull|]. split; [exact Hout|].
  exact (proj2 (C8_My_Free_rejects (P := lp64) lp64_ok lp64_one) 8 Hnull Hout).
Defined.

(** The scenario on LP64, where a header takes 32 bytes. *)
Lemma C9_witness :
  PlatformOk lp64 ∧ 32 ≤ 1928 ∧
  ∃ st4, scenario_B (P := lp64) = Some (4128, 4260, 4492, st4) ∧
         chain (P := lp64) st4
           [(100, ALLOCATED); (200, FREE); (300, ALLOCATED); (9512, FREE)].
Proof.
  assert (32 ≤ 1928) as Hh by lia.
  split; [exact lp64_ok|]. split; [exact Hh|].
  destruct (C9_scenario_B (P := lp64) lp64_ok Hh) as (st3 & st4 & _ & _ & _ & _ & HB & Hc & _).
  exists st4. split; [exact HB|exact Hc].
Defined.

(** The largest [size_t] of LP64 on an initialized allocator. *)
Lemma C10_witness :
  PlatformOk lp64 ∧ 2 ^ 64 - 3 ≤ 2 ^ 64 - 1 < 2 ^ 64 ∧
  align4 (P := lp64) (2 ^ 64 - 1) = 0 ∧
  My_Malloc (P := lp64) lp64_one (2 ^ 64 - 1) = Some (ExitZeroSize, NULL, lp64_one).
Proof.
  assert (2 ^ 64 - 3 ≤ 2 ^ 64 - 1 < 2 ^ 64) as Hs by lia.
  split; [exact lp64_ok|]. split; [exact Hs|].
  destruct (C10_My_Malloc_size_wraps (P := lp64) lp64_ok lp64_one (2 ^ 64 - 1) Hs)
    as (Hz & _ & Hm).
  split; [exact Hz|]. apply Hm. by vm_compute.
Defined.

(** The scenario on LP64, as [Memory_Stats] prints it after the release of
    the second block. *)
Lemma scenario_B_report_lp64 :
  scenario_B_report (P := lp64) =
    Some {| rows := [(4128, 100, ALLOCATED); (4260, 200, FREE);
                     (4492, 300, ALLOCATED); (4824, 9512, FREE)];
            block_count := 4; free_blocks := 2; total_free := 9712 |}.
Proof. vm_compute. reflexivity. Qed.

(** C9, as the specification words it, fails on LP64: of the four blocks
    two are allocated and two are free. *)
Lemma C9_counterexample : ¬ scenario_B_as_specified (P := lp64).
Proof.
  intros (rep & Hrep & _ & Hthree & _).
  rewrite scenario_B_report_lp64 in Hrep. injection Hrep as <-.
  vm_compute in Hthree. discriminate.
Qed.

(** C10, as the specification words it, fails at the start of the program:
    the call with the largest [size_t] initializes the allocator. *)
Lemma C10_counterexample :
  My_Malloc (P := lp64) program_start (2 ^ 64 - 1)
  ≠ Some (ExitZeroSize, NULL, program_start).
Proof.
  intros H.
  apply (f_equal (λ r : option (MallocExit * Z * State),
                    match r with
                    | Some (_, _, st) => is_initialized st
                    | None => 0
                    end)) in H.
  vm_compute in H. discriminate.
Qed.

(** ** The further properties on LP64 *)

Lemma lp64_one_allocated :
  My_Malloc (P := lp64) lp64_ready 100 = Some (ExitFound, 4128, lp64_one).
Proof. vm_compute. reflexivity. Qed.

Lemma lp64_one_reachable : reachable (P := lp64) lp64_one [4128].
Proof.
  eapply reach_malloc; [|exact lp64_one_allocated].
  exact (reach_init (P := lp64) program_start eq_refl).
Qed.

Lemma lp64_one_released :
  My_Free (P := lp64) lp64_one 4128 = Some ([], lp64_released).
Proof. vm_compute. reflexivity. Qed.

Lemma lp64_three_chain :
  chain (P := lp64) lp64_three
    [(100, ALLOCATED); (200, ALLOCATED); (300, ALLOCATED); (9512, FREE)].
Proof. repeat split; vm_compute; done. Qed.

Lemma lp64_hole_chain :
  chain (P := lp64) lp64_hole ([] ++ (100, FREE) :: (200, ALLOCATED) :: [(9844, FREE)]).
Proof. repeat split; vm_compute; done. Qed.

(** The first allocation of [main] on LP64. *)
Lemma X1_witness :
  PlatformOk lp64 ∧ chain (P := lp64) lp64_ready [(10208, FREE)] ∧
  0 ≤ 100 < 2 ^ 64 ∧
  My_Malloc (P := lp64) lp64_ready 100 = Some (ExitFound, 4128, lp64_one) ∧
  4128 ≠ NULL ∧
  ∃ bs' n, chain (P := lp64) lp64_one bs' ∧ (4128, n) ∈ allocated (P := lp64) 4096 bs' ∧
           100 ≤ n ∧ n < 100 + 2 * 32.
Proof.
  assert (0 ≤ 100 < 2 ^ 64) as Hs by lia.
  split; [exact lp64_ok|]. split; [exact lp64_ready_chain|]. split; [exact Hs|].
  split; [exact lp64_one_allocated|].
  destruct (X1_My_Malloc_outcome (P := lp64) lp64_ok lp64_ready [(10208, FREE)] 100
              ExitFound 4128 lp64_one lp64_ready_chain Hs lp64_one_allocated)
    as [_ Hfound].
  destruct (Hfound eq_refl) as (Hnull & bs' & n & Hc & Hin & Hle & [Hlo Hhi] & _).
  split; [exact Hnull|]. exists bs', n. split; [exact Hc|]. split; [exact Hin|].
  split; [exact Hle|exact Hhi].
Defined.

(** The first allocation of [main] on LP64 adds its region. *)
Lemma X2_witness :
  PlatformOk lp64 ∧ chain (P := lp64) lp64_ready [(10208, FREE)] ∧
  My_Malloc (P := lp64) lp64_ready 100 = Some (ExitFound, 4128, lp64_one) ∧
  ∃ bs' n, chain (P := lp64) lp64_one bs' ∧
           allocated (P := lp64) 4096 bs' ≡ₚ (4128, n) :: [].
Proof.
  split; [exact lp64_ok|]. split; [exact lp64_ready_chain|].
  split; [exact lp64_one_allocated|].
  exact (X2_My_Malloc_keeps_regions (P := lp64) lp64_ok lp64_ready [(10208, FREE)] 100
           4128 lp64_one lp64_ready_chain lp64_one_allocated).
Defined.

(** The release of the block of 100 bytes on LP64. *)
Lemma X3_witness :
  PlatformOk lp64 ∧ chain (P := lp64) lp64_one [(100, ALLOCATED); (10076, FREE)] ∧
  (4128, 100) ∈ [(4128, 100)] ∧
  ∃ st' bs', My_Free (P := lp64) lp64_one 4128 = Some ([], st') ∧
             chain (P := lp64) st' bs' ∧
             [(4128, 100)] ≡ₚ (4128, 100) :: allocated (P := lp64) 4096 bs'.
Proof.
  assert ((4128, 100) ∈ [(4128, 100)]) as Hin by left.
  split; [exact lp64_ok|]. split; [exact lp64_one_chain|]. split; [exact Hin|].
  exact (X3_My_Free_releases_region (P := lp64) lp64_ok lp64_one
           [(100, ALLOCATED); (10076, FREE)] 4128 100 lp64_one_chain Hin).
Defined.

(** The first two regions of [main] on LP64 are a header apart. *)
Lemma X4_witness :
  PlatformOk lp64 ∧
  chain (P := lp64) lp64_three
    [(100, ALLOCATED); (200, ALLOCATED); (300, ALLOCATED); (9512, FREE)] ∧
  4128 + 100 + 32 ≤ 4260.
Proof.
  split; [exact lp64_ok|]. split; [exact lp64_three_chain|].
  destruct (X4_regions_apart (P := lp64) lp64_ok lp64_three _ lp64_three_chain)
    as (_ & Hapart & _).
  apply (Hapart 4128 100 4260 200).
  - left.
  - right. left.
  - lia.
Defined.

(** The pointer in use after the first allocation of [main] on LP64. *)
Lemma X5_witness :
  PlatformOk lp64 ∧ reachable (P := lp64) lp64_one [4128] ∧ NoDup [4128].
Proof.
  split; [exact lp64_ok|]. split; [exact lp64_one_reachable|].
  exact (proj1 (X5_pointers_in_use (P := lp64) lp64_ok lp64_one [4128]
                  lp64_one_reachable)).
Defined.

(** On LP64 a request of the whole pool fails and a first request of 100
    bytes is given the base of the pool. *)
Lemma X6_witness :
  PlatformOk lp64 ∧ chain (P := lp64) lp64_one [(100, ALLOCATED); (10076, FREE)] ∧
  MEMORY_POOL_SIZE - 32 < align4 (P := lp64) MEMORY_POOL_SIZE ∧
  My_Malloc (P := lp64) lp64_one MEMORY_POOL_SIZE = Some (ExitNotFound, NULL, lp64_one) ∧
  is_initialized program_start = 0 ∧ 0 < align4 (P := lp64) 100 ≤ MEMORY_POOL_SIZE - 32 ∧
  ∃ st', My_Malloc (P := lp64) program_start 100 = Some (ExitFound, 4096 + 32, st').
Proof.
  assert (MEMORY_POOL_SIZE - 32 < align4 (P := lp64) MEMORY_POOL_SIZE) as Hbig
    by (by vm_compute).
  assert (0 < align4 (P := lp64) 100 ≤ MEMORY_POOL_SIZE - 32) as Hs
    by (split; by vm_compute).
  destruct (X6_capacity (P := lp64) lp64_ok) as [Hfail Hfirst].
  split; [exact lp64_ok|]. split; [exact lp64_one_chain|]. split; [exact Hbig|].
  split; [exact (Hfail lp64_one _ MEMORY_POOL_SIZE lp64_one_chain Hbig)|].
  split; [reflexivity|]. split; [exact Hs|].
  exact (Hfirst program_start 100 eq_refl Hs).
Defined.

(** On LP64 a header takes 32 bytes and the first pointer of [main] is 32
    bytes from the base. *)
Lemma X7_witness :
  PlatformOk lp64 ∧ 32 mod 4 = 0 ∧ reachable (P := lp64) lp64_one [4128] ∧
  (4128 - 4096) mod 4 = 0.
Proof.
  assert (32 mod 4 = 0) as Hh by reflexivity.
  split; [exact lp64_ok|]. split; [exact Hh|]. split; [exact lp64_one_reachable|].
  destruct (X7_alignment (P := lp64) lp64_ok lp64_one [4128] Hh lp64_one_reachable)
    as [Hp _].
  apply (Hp 4128). left.
Defined.

(** The first allocation of [main] on LP64, released at once. *)
Lemma X8_witness :
  PlatformOk lp64 ∧ chain (P := lp64) lp64_ready [(10208, FREE)] ∧
  no_adjacent_free [(10208, FREE)] ∧
  My_Malloc (P := lp64) lp64_ready 100 = Some (ExitFound, 4128, lp64_one) ∧
  ∃ st'', My_Free (P := lp64) lp64_one 4128 = Some ([], st'') ∧
          chain (P := lp64) st'' [(10208, FREE)].
Proof.
  assert (no_adjacent_free [(10208, FREE)]) as Hn by (by simpl).
  split; [exact lp64_ok|]. split; [exact lp64_ready_chain|]. split; [exact Hn|].
  split; [exact lp64_one_allocated|].
  destruct (X8_malloc_then_free (P := lp64) lp64_ok lp64_ready [(10208, FREE)] 100 4128
              lp64_one lp64_ready_chain Hn lp64_one_allocated) as (st'' & Hf & Hc & _).
  exists st''. split; [exact Hf|exact Hc].
Defined.

(** The release of the free block of the initialized pool on LP64. *)
Lemma X9_witness :
  PlatformOk lp64 ∧ chain (P := lp64) lp64_ready ([] ++ (10208, FREE) :: []) ∧
  no_adjacent_free ([] ++ (10208, FREE) :: []) ∧
  My_Free (P := lp64) lp64_ready (4096 + 0 + 32) = Some ([], lp64_ready).
Proof.
  assert (no_adjacent_free ([] ++ (10208, FREE) :: [])) as Hn by (by simpl).
  split; [exact lp64_ok|]. split; [exact lp64_ready_chain|]. split; [exact Hn|].
  exact (X9_My_Free_free_block (P := lp64) lp64_ok lp64_ready [] [] 10208
           lp64_ready_chain Hn).
Defined.

(** On LP64, 50 bytes are found again where 100 were released. *)
Lemma X10_witness :
  PlatformOk lp64 ∧ chain (P := lp64) lp64_one [(100, ALLOCATED); (10076, FREE)] ∧
  (4128, 100) ∈ [(4128, 100)] ∧
  My_Free (P := lp64) lp64_one 4128 = Some ([], lp64_released) ∧
  0 < align4 (P := lp64) 50 ≤ 100 ∧
  ∃ q st'', My_Malloc (P := lp64) lp64_released 50 = Some (ExitFound, q, st'') ∧ q ≤ 4128.
Proof.
  assert ((4128, 100) ∈ [(4128, 100)]) as Hin by left.
  assert (0 < align4 (P := lp64) 50 ≤ 100) as Hs by (split; by vm_compute).
  split; [exact lp64_ok|]. split; [exact lp64_one_chain|]. split; [exact Hin|].
  split; [exact lp64_one_released|]. split; [exact Hs|].
  exact (X10_reuse_after_release (P := lp64) lp64_ok lp64_one
           [(100, ALLOCATED); (10076, FREE)] 4128 100 50 [] lp64_released
           lp64_one_chain Hin lp64_one_released Hs).
Defined.

(** The third line of the listing after the three allocations of [main] on
    LP64. *)
Lemma X11_witness :
  PlatformOk lp64 ∧
  chain (P := lp64) lp64_three
    [(100, ALLOCATED); (200, ALLOCATED); (300, ALLOCATED); (9512, FREE)] ∧
  ∃ rep, Memory_Stats (P := lp64) lp64_three = Some rep ∧
         rows rep !! 2%nat = Some (4096 + (32 + 100 + (32 + 200 + 0)) + 32, 300, ALLOCATED).
Proof.
  split; [exact lp64_ok|]. split; [exact lp64_three_chain|].
  destruct (X11_Memory_Stats_rows (P := lp64) lp64_ok lp64_three _ lp64_three_chain)
    as (rep & Hrep & _ & Hrows).
  exists rep. split; [exact Hrep|].
  exact (proj1 (Hrows [(100, ALLOCATED); (200, ALLOCATED)] (300, ALLOCATED)
                  [(9512, FREE)] eq_refl)).
Defined.

Lemma lp64_three_report :
  Memory_Stats (P := lp64) lp64_three =
    Some {| rows := [(4128, 100, ALLOCATED); (4260, 200, ALLOCATED);
                     (4492, 300, ALLOCATED); (4824, 9512, FREE)];
            block_count := 4; free_blocks := 1; total_free := 9512 |}.
Proof. vm_compute. reflexivity. Qed.

(** The summary after the three allocations of [main] on LP64: 9512 free
    bytes, 600 allocated and four headers of 32. *)
Lemma X12_witness :
  PlatformOk lp64 ∧
  chain (P := lp64) lp64_three
    [(100, ALLOCATED); (200, ALLOCATED); (300, ALLOCATED); (9512, FREE)] ∧
  9512 + row_bytes ALLOCATED
           [(4128, 100, ALLOCATED); (4260, 200, ALLOCATED);
            (4492, 300, ALLOCATED); (4824, 9512, FREE)] + 32 * 4 = MEMORY_POOL_SIZE.
Proof.
  split; [exact lp64_ok|]. split; [exact lp64_three_chain|].
  destruct (X12_Memory_Stats_summary (P := lp64) lp64_ok lp64_three _ _
              lp64_three_chain lp64_three_report) as (_ & _ & _ & Hsum).
  exact Hsum.
Defined.

(** [main] on LP64 returns 0. *)
Lemma X13_witness :
  PlatformOk lp64 ∧ 32 ≤ 1928 ∧
  snd <$> main (P := lp64) = Some 0.
Proof.
  assert (32 ≤ 1928) as Hh by lia.
  split; [exact lp64_ok|]. split; [exact Hh|].
  rewrite (X13_main (P := lp64) lp64_ok Hh). reflexivity.
Defined.

(** On LP64, after allocations of 100 and 200 bytes and the release of the
    first, two releases of the second leave one block that [Memory_Stats]
    reports with 20316 bytes, more than the pool has. *)
Lemma X14_witness :
  PlatformOk lp64 ∧
  chain (P := lp64) lp64_hole ([] ++ (100, FREE) :: (200, ALLOCATED) :: [(9844, FREE)]) ∧
  no_adjacent_free ([] ++ (100, FREE) :: (200, ALLOCATED) :: [(9844, FREE)]) ∧
  (∃ st1 st2 h,
     My_Free (P := lp64) lp64_hole 4260 = Some ([], st1) ∧
     My_Free (P := lp64) st1 4260 = Some ([], st2) ∧
     headers st2 !! 4096 = Some h ∧ 4096 + 32 + size h = 4096 + 10240 + (32 + 10076)) ∧
  double_release (P := lp64) =
    Some {| rows := [(4128, 20316, FREE)]; block_count := 1; free_blocks := 1;
            total_free := 20316 |}.
Proof.
  assert (no_adjacent_free ([] ++ (100, FREE) :: (200, ALLOCATED) :: [(9844, FREE)]))
    as Hn.
  { simpl. repeat split; by intros [? ?]. }
  split; [exact lp64_ok|]. split; [exact lp64_hole_chain|]. split; [exact Hn|].
  split; [|vm_compute; reflexivity].
  destruct (X14_double_release (P := lp64) lp64_ok lp64_hole [] [(9844, FREE)] 100 200
              lp64_hole_chain Hn)
    as (st1 & st2 & h & Hf1 & _ & _ & Hf2 & Hh & _ & _ & Hsz & _).
  exists st1, st2, h. split; [exact Hf1|]. split; [exact Hf2|]. split; [exact Hh|].
  exact Hsz.
Defined.

(** The release of the pointer in use after the first allocation of [main]
    on LP64. *)
Lemma X15_witness :
  PlatformOk lp64 ∧ reachable (P := lp64) lp64_one [4128] ∧ [4128] ≡ₚ [4128] ∧
  ∃ st', free_all (P := lp64) lp64_one [4128] = Some st' ∧
         chain (P := lp64) st' [(10208, FREE)].
Proof.
  assert ([4128] ≡ₚ [4128]) as Hq by reflexivity.
  split; [exact lp64_ok|]. split; [exact lp64_one_reachable|]. split; [exact Hq|].
  destruct (X15_release_all (P := lp64) lp64_ok lp64_one [4128] [4128]
              lp64_one_reachable Hq) as (st' & Hf & Hc & _).
  exists st'. split; [exact Hf|exact Hc].
Defined.
